(** * SecureWipe: a shallow embedding of [securewipe.py]

    The development follows the layout of the program:

    - [Py]            the fragment of Python's run-time behaviour the code
                      relies on: exceptions with [try]/[except]/[finally],
                      floor division, byte strings;
    - [WriteScheduler] the multi-pass overwrite loop of [wipe_free_space]
                      and of the free-space step of [format_disk];
    - [Pipeline]      the full-disk pipeline [format_disk];
    - [TimeEstimator] [estimate_write_speed], [estimate_operation_time];
    - [SizeUnits]     [format_size] and [parse_size].

    Everything the program obtains from the operating system (results of
    external commands, the outcome of each [write], whether a file can be
    removed, what the user types) is read from an explicit environment
    record, so every function below is total and can be evaluated. *)

From Stdlib Require Import ZArith List String Ascii Bool Lia.
From Stdlib Require Import Init.Byte.
From Stdlib Require Import QArith Qround Qabs Lqa.
Import ListNotations.
Open Scope string_scope.
Open Scope Z_scope.

(* ================================================================== *)
(** * Python run-time model *)
(* ================================================================== *)

Module Py.

(** The exceptions that occur in the program.  [SystemExit] derives from
    [BaseException] only, so [except Exception] does not catch it. *)
Inductive exn : Type :=
| OSError (errno : Z)
| ValueError
| OverflowError
| OtherError
| SystemExit (code : Z).

Definition is_Exception (e : exn) : bool :=
  match e with
  | SystemExit _ => false
  | _ => true
  end.

Definition is_OSError (e : exn) : bool :=
  match e with
  | OSError _ => true
  | _ => false
  end.

(** [FileNotFoundError] is the [OSError] whose errno is [ENOENT] = 2. *)
Definition is_FileNotFoundError (e : exn) : bool :=
  match e with
  | OSError n => n =? 2
  | _ => false
  end.

(** [errno.ENOSPC], [errno.EFBIG] and two other codes used in examples
    (Linux numbering). *)
Definition ENOSPC : Z := 28.
Definition EFBIG : Z := 27.
Definition EACCES : Z := 13.
Definition ENOENT : Z := 2.

(** Outcome of a computation: a value or a raised exception. *)
Inductive res (A : Type) : Type :=
| Done (a : A)
| Raised (e : exn).
Arguments Done {A} a.
Arguments Raised {A} e.

(** Computations over a store [W]. *)
Definition M (W A : Type) : Type := W -> res A * W.

Definition ret {W A} (a : A) : M W A := fun w => (Done a, w).

Definition bind {W A B} (c : M W A) (k : A -> M W B) : M W B :=
  fun w =>
    match c w with
    | (Done a, w') => k a w'
    | (Raised e, w') => (Raised e, w')
    end.

Definition raise {W A} (e : exn) : M W A := fun w => (Raised e, w).

Definition get {W} : M W W := fun w => (Done w, w).
Definition modify {W} (f : W -> W) : M W unit := fun w => (Done tt, f w).

(** [try: c  except <sel> as e: h e] *)
Definition try_except {W A} (c : M W A) (sel : exn -> bool)
           (h : exn -> M W A) : M W A :=
  fun w =>
    match c w with
    | (Done a, w') => (Done a, w')
    | (Raised e, w') => if sel e then h e w' else (Raised e, w')
    end.

(** [try: c  finally: f].  An exception raised by [f] replaces the
    pending outcome. *)
Definition try_finally {W A} (c : M W A) (f : M W unit) : M W A :=
  fun w =>
    match c w with
    | (r, w') =>
        match f w' with
        | (Done _, w'') => (r, w'')
        | (Raised e, w'') => (Raised e, w'')
        end
    end.

(** [for x in xs: body x] *)
Fixpoint for_each {W A} (xs : list A) (body : A -> M W unit) : M W unit :=
  match xs with
  | [] => ret tt
  | x :: xs' => bind (body x) (fun _ => for_each xs' body)
  end.

(** [range(n)]: empty when [n <= 0]. *)
Definition range (n : Z) : list Z :=
  map Z.of_nat (seq 0 (Z.to_nat n)).

(** [b * n] on byte strings: [n] copies, none when [n <= 0]. *)
Fixpoint repeat_bytes (b : list byte) (n : nat) : list byte :=
  match n with
  | O => []
  | S n' => b ++ repeat_bytes b n'
  end.

Definition bytes_mul (b : list byte) (n : Z) : list byte :=
  repeat_bytes b (Z.to_nat n).

(** [b[:n]]: the first [n] bytes, or all but the last [-n] when [n < 0]. *)
Definition slice_to (b : list byte) (n : Z) : list byte :=
  if 0 <=? n then firstn (Z.to_nat n) b
  else firstn (List.length b - Z.to_nat (- n))%nat b.

(** [len(b)] *)
Definition len (b : list byte) : Z := Z.of_nat (List.length b).

(** Decimal digits of a natural number, most significant first. *)
Definition digit_char (d : Z) : ascii := ascii_of_nat (48 + Z.to_nat d).

Fixpoint digits_aux (fuel : nat) (n : Z) (acc : string) : string :=
  match fuel with
  | O => acc
  | S fuel' =>
      let acc' := String (digit_char (n mod 10)) acc in
      if n / 10 =? 0 then acc' else digits_aux fuel' (n / 10) acc'
  end.

Definition digits (n : Z) : string :=
  digits_aux (S (Z.to_nat (Z.log2 n))) n "".

(** [str(n)] for an [int]. *)
Definition str_of_Z (n : Z) : string :=
  if n <? 0 then "-" ++ digits (- n) else digits n.

(** [c.lower()] and [c.upper()] on one character (ASCII letters only
    change). *)
Definition lower_char (c : ascii) : ascii :=
  let n := nat_of_ascii c in
  if ((65 <=? n) && (n <=? 90))%nat then ascii_of_nat (n + 32) else c.

Definition upper_char (c : ascii) : ascii :=
  let n := nat_of_ascii c in
  if ((97 <=? n) && (n <=? 122))%nat then ascii_of_nat (n - 32) else c.

Fixpoint map_string (f : ascii -> ascii) (s : string) : string :=
  match s with
  | EmptyString => EmptyString
  | String c s' => String (f c) (map_string f s')
  end.

Definition lower (s : string) : string := map_string lower_char s.
Definition upper (s : string) : string := map_string upper_char s.

(** Last character of a string, if any. *)
Fixpoint last_char (s : string) : option ascii :=
  match s with
  | EmptyString => None
  | String c EmptyString => Some c
  | String _ s' => last_char s'
  end.

(** [os.path.join(a, b)] for a relative [b], POSIX flavour. *)
Definition path_join (a b : string) : string :=
  match last_char a with
  | None => b
  | Some c => if Ascii.eqb c "/" then a ++ b else a ++ "/" ++ b
  end.

End Py.

Declare Scope py_scope.
Delimit Scope py_scope with py.
Notation "x <- c ;; k" := (Py.bind c (fun x => k))
  (at level 61, c at next level, right associativity) : py_scope.
Notation "c ;; k" := (Py.bind c (fun _ => k))
  (at level 61, right associativity) : py_scope.

(* ================================================================== *)
(** * The machine the program runs on *)
(* ================================================================== *)

Module Sys.
Import Py.

Inductive system : Type := Darwin | Linux | Windows | OtherSystem.

(** Stages of the full-disk pipeline that are delegated to external
    tools ([hdparm], [smartctl], [diskutil]). *)
Inductive stage : Type :=
| CacheFlush
| RemappedSectors
| HiddenAreaCheck
| HiddenAreaRemoval
| RawOverwrite
| EnhancedErase
| SmartClear.

(** What an observer of the process sees, in order. *)
Inductive event : Type :=
| Say (msg : string)
| PassBanner (p passes : Z) (mode : string)
| ErrLine (e : exn)
| Opened (f : string)
| Wrote (f : string) (chunk : list byte) (written : Z)
| WriteFault (f : string) (chunk : list byte) (errno : Z)
| Flushed (f : string)
| BarDraw
| Removed (f : string)
| RemoveFault (f : string)
| PassComplete (p : Z) (wiped : Z)
| Summary (passes : Z) (total_wiped : Z)
| Ran (s : stage) (ok : bool)
| FormatCmd (step : string)
| WipeStart (mount_point : string).

(** A [tqdm] progress bar: only its [disable] flag matters here. *)
Record bar : Type := { disable : bool }.

(** The store: the files on disk and the mutable objects shared between
    the write loop, the clean-up function and the signal handler. *)
Record world : Type := {
  disk : list string;          (* paths for which os.path.exists holds *)
  temp_files : list string;    (* the clean-up registry *)
  progress_bar : option bar;   (* the most recent tqdm object *)
  container : bool;            (* progress_bar_container['instance'] is
                                  not None; it then is [progress_bar] *)
  written : option Z;          (* the local [written]; None = unbound *)
  entropy_pos : nat;           (* bytes consumed from the entropy source *)
  atexit_cleanup : bool;       (* cleanup_temp_files is registered *)
  trace : list event
}.

Definition set_disk (d : list string) (w : world) : world :=
  {| disk := d; temp_files := temp_files w; progress_bar := progress_bar w;
     container := container w; written := written w;
     entropy_pos := entropy_pos w; atexit_cleanup := atexit_cleanup w;
     trace := trace w |}.

Definition set_temp_files (t : list string) (w : world) : world :=
  {| disk := disk w; temp_files := t; progress_bar := progress_bar w;
     container := container w; written := written w;
     entropy_pos := entropy_pos w; atexit_cleanup := atexit_cleanup w;
     trace := trace w |}.

Definition set_bar (b : option bar) (c : bool) (w : world) : world :=
  {| disk := disk w; temp_files := temp_files w; progress_bar := b;
     container := c; written := written w;
     entropy_pos := entropy_pos w; atexit_cleanup := atexit_cleanup w;
     trace := trace w |}.

Definition set_written (n : option Z) (w : world) : world :=
  {| disk := disk w; temp_files := temp_files w; progress_bar := progress_bar w;
     container := container w; written := n;
     entropy_pos := entropy_pos w; atexit_cleanup := atexit_cleanup w;
     trace := trace w |}.

Definition set_entropy_pos (n : nat) (w : world) : world :=
  {| disk := disk w; temp_files := temp_files w; progress_bar := progress_bar w;
     container := container w; written := written w;
     entropy_pos := n; atexit_cleanup := atexit_cleanup w;
     trace := trace w |}.

Definition set_atexit (b : bool) (w : world) : world :=
  {| disk := disk w; temp_files := temp_files w; progress_bar := progress_bar w;
     container := container w; written := written w;
     entropy_pos := entropy_pos w; atexit_cleanup := b;
     trace := trace w |}.

Definition log (e : event) (w : world) : world :=
  {| disk := disk w; temp_files := temp_files w; progress_bar := progress_bar w;
     container := container w; written := written w;
     entropy_pos := entropy_pos w; atexit_cleanup := atexit_cleanup w;
     trace := trace w ++ [e] |}.

(** A fresh process: the given files exist, nothing else. *)
Definition boot (files : list string) : world :=
  {| disk := files; temp_files := []; progress_bar := None;
     container := false; written := None; entropy_pos := 0%nat;
     atexit_cleanup := false; trace := [] |}.

(** How one fill pass ends: the operating system lets [writes_ok] calls
    of [f.write] succeed and then either fails the next one with an
    [OSError] or the user presses CTRL+C. *)
Inductive stopper : Type :=
| WriteRaises (errno : Z)
| Sigint.

Record pass_io : Type := { writes_ok : nat; stop : stopper }.

(** Outcome of an external command run through [subprocess.run]. *)
Inductive cmd : Type :=
| Exited (returncode : Z)
| CmdRaises (errno : Z).          (* subprocess.run raised OSError *)

(** Outcome of a probe that answers yes or no, or raises. *)
Inductive probe : Type :=
| Answer (b : bool)
| ProbeRaises.

(** Everything read from outside the process. *)
Record env : Type := {
  platform_system : system;
  entropy : nat -> byte;                 (* os.urandom's source *)
  removable : string -> bool;            (* os.remove f succeeds *)
  io : Z -> pass_io;                     (* per pass index *)
  get_free_space : string -> Z;
  (* wipe_free_space: drive selection and prompts *)
  writable_path : string -> res (option string * Z);
  switch_to_format : option (string * string * option string);
  confirm_wipe : bool;
  (* format_disk *)
  disk_path_exists : bool;
  cache_flush : bool;
  remapped_sectors : bool;
  hpa_check : probe;
  hpa_removal : probe;
  enhanced_erase : bool;
  smart_clear : bool;
  typed_confirmation : string;
  format_command : string -> cmd;        (* per step name *)
  disk_mountpoint : option string
}.

Definition W := M world.

Definition emit (e : event) : W unit := modify (log e).

(** Membership test on paths ([x in xs], [os.path.exists]). *)
Definition mem (x : string) (xs : list string) : bool :=
  existsb (String.eqb x) xs.

(** [xs.remove(x)] for an [x] known to occur: drops its first occurrence. *)
Fixpoint remove_first (x : string) (xs : list string) : list string :=
  match xs with
  | [] => []
  | y :: ys => if String.eqb x y then ys else y :: remove_first x ys
  end.

(** Deleting a file from the disk removes the path altogether. *)
Definition unlink (x : string) (xs : list string) : list string :=
  filter (fun y => negb (String.eqb x y)) xs.

Definition path_exists (f : string) : W bool :=
  fun w => (Done (mem f (disk w)), w).

(** [os.remove(f)]: raises [OSError] when the system refuses. *)
Definition os_remove (E : env) (f : string) : W unit :=
  fun w =>
    if removable E f then (Done tt, log (Removed f) (set_disk (unlink f (disk w)) w))
    else (Raised (OSError EACCES), log (RemoveFault f) w).

(** [open(f, 'wb')]: the file exists from then on. *)
Definition open_wb (f : string) : W unit :=
  fun w =>
    (Done tt, log (Opened f)
                  (set_disk (if mem f (disk w) then disk w else f :: disk w) w)).

(** [os.urandom(n)] *)
Definition urandom (E : env) (n : Z) : W (list byte) :=
  fun w =>
    if n <? 0 then (Raised ValueError, w)
    else (Done (map (entropy E) (seq (entropy_pos w) (Z.to_nat n))),
          set_entropy_pos (entropy_pos w + Z.to_nat n)%nat w).

(** [progress_bar = tqdm(...); progress_bar_container['instance'] = progress_bar] *)
Definition tqdm_new : W unit :=
  modify (set_bar (Some {| disable := false |}) true).

(** Output of the bar ([update], [close]) is suppressed once [disable] is set. *)
Definition tqdm_draw : W unit :=
  fun w =>
    match progress_bar w with
    | Some b => if disable b then (Done tt, w) else (Done tt, log BarDraw w)
    | None => (Done tt, w)
    end.

End Sys.

(* ================================================================== *)
(** * WriteScheduler: patterns, blocks, clean-up and cancellation *)
(* ================================================================== *)

Module WriteScheduler.
Import Py Sys.
Local Open Scope py_scope.


(** [{1: 'zeroes', 2: 'ones'}.get(p % 3, 'random')] *)
Definition cycle_mode (p : Z) : string :=
  if p mod 3 =? 1 then "zeroes"
  else if p mod 3 =? 2 then "ones"
  else "random".

(** Pattern of pass [p] in [wipe_free_space] (the [if]/[elif] chain at
    the head of the pass loop). *)
Definition wipe_free_space_mode (pattern : string) (p : Z) : string :=
  if String.eqb pattern "zeroes" then "zeroes"
  else if String.eqb pattern "ones" then "ones"
  else if String.eqb pattern "random" then "random"
  else if String.eqb pattern "ticks" then "ticks"
  else if String.eqb pattern "haha" then "haha"
  else if p =? 0 then "random"
  else cycle_mode p.

(** Pattern of pass [p] in the free-space step of [format_disk]. *)
Definition format_disk_mode (pattern : string) (p : Z) : string :=
  if String.eqb pattern "all" then
    if p =? 0 then "random" else cycle_mode p
  else pattern.

(** [b'3===D'] and [b'haha-'] *)
Definition ticks_bytes : list byte := [x33; x3d; x3d; x3d; x44].
Definition haha_bytes : list byte := [x68; x61; x68; x61; x2d].

(** [(pattern_bytes * (block_size // len(pattern_bytes) + 1))[:block_size]] *)
Definition tile (pattern_bytes : list byte) (block_size : Z) : list byte :=
  slice_to (bytes_mul pattern_bytes (block_size / len pattern_bytes + 1))
           block_size.

(** The block written in one iteration of [wipe_free_space]. *)
Definition wipe_free_space_chunk (E : env) (mode : string) (block_size : Z)
  : W (list byte) :=
  if String.eqb mode "random" then urandom E block_size
  else if String.eqb mode "ones" then ret (bytes_mul [xff] block_size)
  else if String.eqb mode "ticks" then ret (tile ticks_bytes block_size)
  else if String.eqb mode "haha" then ret (tile haha_bytes block_size)
  else ret (bytes_mul [x00] block_size).

(** The block written in one iteration of [format_disk]'s wipe step;
    any mode other than the three basic ones falls back to random. *)
Definition format_disk_chunk (E : env) (mode : string) (block_size : Z)
  : W (list byte) :=
  if String.eqb mode "random" then urandom E block_size
  else if String.eqb mode "ones" then ret (bytes_mul [xff] block_size)
  else if String.eqb mode "zeroes" then ret (bytes_mul [x00] block_size)
  else urandom E block_size.

(** [cleanup_temp_files]: one registry entry. *)
Definition cleanup_one (E : env) (temp_file : string) : W unit :=
  try_except
    (present <- path_exists temp_file ;;
     if present then
       os_remove E temp_file ;;
       emit (Say "Cleaned up temporary file")
     else ret tt)
    is_Exception
    (fun _ => emit (Say "Warning: Could not remove temporary file")).

(** [cleanup_temp_files] (the same closure in both callers). *)
Definition cleanup_temp_files (E : env) : W unit :=
  w <- get ;;
  for_each (temp_files w) (cleanup_one E).

(** The body of [signal_handler] up to its [sys.exit]:
    the bar held by the container is disabled and the container emptied. *)
Definition disable_progress_bar : W unit :=
  modify (fun w =>
            if container w then
              set_bar (option_map (fun _ => {| disable := true |})
                                  (progress_bar w)) false w
            else w).

(** [signal_handler(sig, frame)], installed for SIGINT. *)
Definition signal_handler (E : env) : W unit :=
  disable_progress_bar ;;
  emit (Say "Operation interrupted by user. Cleaning up...") ;;
  cleanup_temp_files E ;;
  emit (Say "Wiping operation canceled.") ;;
  raise (SystemExit 130).

(** [written += block_size] *)
Definition add_written (block_size : Z) : W Z :=
  fun w =>
    match written w with
    | Some n => (Done (n + block_size), set_written (Some (n + block_size)) w)
    | None => (Raised OtherError, w)
    end.

(** Reading the local [written] ([UnboundLocalError] when no pass ran). *)
Definition read_written : W Z :=
  fun w =>
    match written w with
    | Some n => (Done n, w)
    | None => (Raised OtherError, w)
    end.

(** [if written % (block_size * 100) == 0: f.flush()] *)
Definition occasional_flush (f : string) (n block_size : Z) : W unit :=
  if block_size * 100 =? 0 then raise OtherError   (* ZeroDivisionError *)
  else if n mod (block_size * 100) =? 0 then emit (Flushed f)
  else ret tt.

(** The [while True] loop of [wipe_free_space].  The throttled time line
    only reads the clock and prints; it is left out. *)
Fixpoint wipe_free_space_loop (E : env) (fname mode : string)
         (block_size : Z) (n : nat) (s : stopper) : W unit :=
  match n with
  | S n' =>
      chunk <- wipe_free_space_chunk E mode block_size ;;
      total <- add_written block_size ;;
      emit (Wrote fname chunk total) ;;
      tqdm_draw ;;
      occasional_flush fname total block_size ;;
      wipe_free_space_loop E fname mode block_size n' s
  | O =>
      match s with
      | Sigint => signal_handler E
      | WriteRaises errno =>
          chunk <- wipe_free_space_chunk E mode block_size ;;
          emit (WriteFault fname chunk errno) ;;
          raise (OSError errno)
      end
  end.

(** [if os.path.exists(fname): os.remove(fname); if fname in temp_files:
    temp_files.remove(fname)] *)
Definition remove_and_unregister (E : env) (fname : string) : W unit :=
  present <- path_exists fname ;;
  if present then
    os_remove E fname ;;
    modify (fun w =>
              if mem fname (temp_files w)
              then set_temp_files (remove_first fname (temp_files w)) w
              else w)
  else ret tt.

(** [e.errno not in (errno.ENOSPC, errno.EFBIG)] *)
Definition unexpected_errno (e : exn) : bool :=
  match e with
  | OSError n => negb ((n =? ENOSPC) || (n =? EFBIG))
  | _ => true
  end.

(** A pass of [wipe_free_space] from the creation of its progress bar
    on: the fill, the removal of the file and the report. *)
Definition wipe_free_space_fill (E : env) (fname : string)
           (block_size free_space : Z) (verify : bool)
           (mode : string) (p : Z) : W unit :=
  tqdm_new ;;
  try_finally
    (try_except
       (open_wb fname ;;
        wipe_free_space_loop E fname mode block_size
                             (writes_ok (io E p)) (stop (io E p)))
       is_OSError
       (fun e => if unexpected_errno e then emit (ErrLine e) else ret tt))
    (tqdm_draw ;;                                   (* progress_bar.close() *)
     try_except (remove_and_unregister E fname) is_OSError
                (fun _ => ret tt)) ;;
  total <- read_written ;;
  emit (PassComplete p (Z.min total free_space)) ;;
  (if verify then
     emit (Say "Verifying wiped space...") ;;
     emit (Say "Verification complete")
   else ret tt).

(** One iteration of [for p in range(passes)] in [wipe_free_space]. *)
Definition wipe_free_space_pass (E : env) (fname : string)
           (passes block_size free_space : Z) (verify : bool)
           (pattern : string) (p : Z) : W unit :=
  let mode := wipe_free_space_mode pattern p in
  emit (PassBanner p passes mode) ;;
  modify (set_written (Some 0)) ;;
  wipe_free_space_fill E fname block_size free_space verify mode p.

End WriteScheduler.

(* ================================================================== *)
(** * SanitizationPipeline: [format_disk] *)
(* ================================================================== *)

Module Pipeline.
Import Py Sys WriteScheduler.
Local Open Scope py_scope.

(** The [while True] loop of [format_disk]'s wipe step.  Here the
    [OSError] of a write is caught inside the loop, which then [break]s. *)
Fixpoint format_disk_loop (E : env) (fname mode : string)
         (block_size : Z) (n : nat) (s : stopper) : W unit :=
  match n with
  | S n' =>
      chunk <- format_disk_chunk E mode block_size ;;
      total <- add_written block_size ;;
      emit (Wrote fname chunk total) ;;
      tqdm_draw ;;
      occasional_flush fname total block_size ;;
      format_disk_loop E fname mode block_size n' s
  | O =>
      match s with
      | Sigint => signal_handler E
      | WriteRaises errno =>
          chunk <- format_disk_chunk E mode block_size ;;
          emit (WriteFault fname chunk errno) ;;
          if errno =? ENOSPC then ret tt
          else emit (ErrLine (OSError errno))
      end
  end.

(** [f'.Securewipe_Complete_disk_{p+1}.tmp'] under the mount point. *)
Definition pass_file (mount_point : string) (p : Z) : string :=
  path_join mount_point
            (".Securewipe_Complete_disk_" ++ str_of_Z (p + 1) ++ ".tmp").

(** [if fname not in temp_files: temp_files.append(fname)] *)
Definition register (fname : string) : W unit :=
  modify (fun w =>
            if mem fname (temp_files w) then w
            else set_temp_files (temp_files w ++ [fname]) w).

(** A pass of [format_disk]'s wipe step from the creation of its
    progress bar on. *)
Definition format_disk_fill (E : env) (mount_point : string)
           (block_size free_space : Z) (mode : string) (p : Z) : W unit :=
  tqdm_new ;;
  let fname := pass_file mount_point p in
  register fname ;;
  try_except
    (present <- path_exists fname ;;
     if present then os_remove E fname else ret tt)
    (fun _ => true)
    (fun _ => ret tt) ;;
  try_finally
    (try_except
       (open_wb fname ;;
        format_disk_loop E fname mode block_size
                         (writes_ok (io E p)) (stop (io E p)))
       is_Exception
       (fun _ => emit (Say "Error during wiping")))
    (tqdm_draw ;;                                   (* progress_bar.close() *)
     modify (fun w => set_bar (progress_bar w) false w)) ;;
  try_except
    (remove_and_unregister E fname)
    is_OSError
    (fun _ => emit (Say "Warning: Could not remove temporary file")) ;;
  total <- read_written ;;
  emit (PassComplete p (Z.min total free_space)).

(** One iteration of [for p in range(passes)] in [format_disk]. *)
Definition format_disk_pass (E : env) (mount_point : string)
           (passes block_size free_space : Z) (pattern : string) (p : Z)
  : W unit :=
  let mode := format_disk_mode pattern p in
  emit (PassBanner p passes mode) ;;
  modify (set_written (Some 0)) ;;
  format_disk_fill E mount_point block_size free_space mode p.

(** The free-space step of [format_disk], from the point where the mount
    point is known ([block_size] is fixed to 1 MiB there). *)
Definition format_disk_wipe (E : env) (mount_point : string)
           (passes : Z) (pattern : string) : W unit :=
  emit (WipeStart mount_point) ;;
  let free_space := get_free_space E mount_point in
  let fname := path_join mount_point ".Securewipe_Complete_disk.tmp" in
  modify (set_temp_files [fname]) ;;
  modify (set_atexit true) ;;
  modify (fun w => set_bar (progress_bar w) false w) ;;
  let block_size := 1048576 in
  for_each (range passes)
           (format_disk_pass E mount_point passes block_size free_space
                             pattern) ;;
  total <- read_written ;;
  emit (Summary passes (Z.min (total * passes) free_space)) ;;
  modify (set_atexit false) ;;
  cleanup_temp_files E.

(** File systems [perform_format] knows how to create on Linux. *)
Definition linux_filesystems : list string :=
  ["ext4"; "ext3"; "ext2"; "fat32"; "vfat"; "exfat"; "ntfs"].

(** Running the platform's format command and checking its status. *)
Definition run_format_command (E : env) (step_name : string) : W unit :=
  emit (FormatCmd step_name) ;;
  match format_command E step_name with
  | CmdRaises errno => raise (OSError errno)
  | Exited rc =>
      if rc =? 0 then emit (Say "Disk formatting output:")
      else emit (Say "Error formatting disk:") ;; raise (SystemExit 1)
  end.

(** The nested function [perform_format(step_name)]. *)
Definition perform_format (E : env) (filesystem : string)
           (step_name : string) : W bool :=
  try_except
    (match platform_system E with
     | Darwin => run_format_command E step_name
     | Linux =>
         if mem (lower filesystem) linux_filesystems then
           try_except
             (run_format_command E step_name)
             is_FileNotFoundError
             (fun _ =>
                emit (Say "Error: Required formatting tool not found.") ;;
                raise (SystemExit 1))
         else
           emit (Say "Error: Unsupported filesystem for Linux.") ;;
           raise (SystemExit 1)
     | Windows =>
         try_except
           (run_format_command E step_name)
           is_Exception
           (fun _ =>
              emit (Say "Error during Windows disk formatting") ;;
              raise (SystemExit 1))
     | OtherSystem =>
         emit (Say "Error: Disk formatting not supported.") ;;
         raise (SystemExit 1)
     end ;;
     ret true)
    is_Exception
    (fun _ => emit (Say "Error during formatting") ;; raise (SystemExit 1)).

(** [check_hpa_dco]: [True] only when hidden areas were found; an
    internal error yields [False]. *)
Definition check_hpa_dco (E : env) : W bool :=
  match platform_system E with
  | Linux | Darwin =>
      match hpa_check E with
      | Answer b => emit (Ran HiddenAreaCheck true) ;; ret b
      | ProbeRaises => emit (Ran HiddenAreaCheck false) ;; ret false
      end
  | _ => emit (Ran HiddenAreaCheck true) ;; ret false
  end.

(** [remove_hpa_dco]: success only on Linux, when [hdparm] restored at
    least one of HPA and DCO. *)
Definition remove_hpa_dco (E : env) : W bool :=
  let ok := match platform_system E with
            | Linux => match hpa_removal E with
                       | Answer b => b
                       | ProbeRaises => false
                       end
            | _ => false
            end in
  emit (Ran HiddenAreaRemoval ok) ;; ret ok.

(** The hidden-area stage of [format_disk]: the check, and the removal
    and raw overwrite that depend on its answer. *)
Definition hidden_area_stage (E : env) : W unit :=
  has_hidden <- check_hpa_dco E ;;
  if has_hidden : bool then
    emit (Say "Removing hidden areas (HPA/DCO) for secure wiping...") ;;
    success <- remove_hpa_dco E ;;
    if success : bool then
      emit (Say "Writing data to previously hidden areas...") ;;
      emit (Ran RawOverwrite true)
    else
      emit (Say "Warning: Could not fully remove hidden areas.")
  else ret tt.

(** [if mount_point:] holds for a non-empty string only. *)
Definition truthy (s : option string) : option string :=
  match s with
  | Some EmptyString => None
  | other => other
  end.

(** [format_disk(disk_path, filesystem, label, no_confirm, passes,
    pattern, verify)].  The gathering of display information and the
    warning boxes only print; they are left out. *)
Definition format_disk (E : env) (disk_path filesystem : string)
           (label : option string) (no_confirm : bool)
           (passes : Z) (pattern : string) (verify : bool) : W unit :=
  modify (set_written None) ;;                  (* locals start unbound *)
  (match platform_system E with
   | Windows => ret tt
   | _ => if disk_path_exists E then ret tt
          else emit (Say "Error: Disk not found.") ;; raise (SystemExit 1)
   end) ;;
  emit (Say "Performing comprehensive secure disk preparation...") ;;
  emit (Ran CacheFlush (cache_flush E)) ;;
  emit (Ran RemappedSectors (remapped_sectors E)) ;;
  hidden_area_stage E ;;
  emit (Ran EnhancedErase (enhanced_erase E)) ;;
  emit (Ran SmartClear (smart_clear E)) ;;
  emit (Ran CacheFlush (cache_flush E)) ;;
  (if no_confirm then ret tt
   else if String.eqb (typed_confirmation E) "I UNDERSTAND" then ret tt
   else emit (Say "Confirmation text does not match. Operation aborted.") ;;
        raise (SystemExit 0)) ;;
  try_except
    (emit (Say "STEP 1: INITIAL DISK FORMAT") ;;
     perform_format E filesystem "Formatting" ;;
     emit (Say "STEP 2: SECURE FREE SPACE WIPE") ;;
     match truthy (disk_mountpoint E) with
     | Some mount_point =>
         emit (Say "Disk mounted at") ;;
         try_except
           (format_disk_wipe E mount_point passes pattern)
           is_Exception
           (fun _ =>
              emit (Say "Error during free space wiping") ;;
              emit (Say "Continuing with final formatting..."))
     | None =>
         emit (Say "Warning: Could not determine mount point for disk.") ;;
         emit (Say "Skipping free space wiping. The disk may not be fully secure.")
     end ;;
     emit (Say "STEP 3: FINAL DISK FORMAT") ;;
     perform_format E filesystem "Final formatting" ;;
     emit (Say "SECURE DISK ERASE COMPLETE"))
    is_Exception
    (fun _ => emit (Say "Error during secure disk erase") ;;
              raise (SystemExit 1)).

End Pipeline.

(* ================================================================== *)
(** * The two commands of the tool and the process around them *)
(* ================================================================== *)

Module Commands.
Import Py Sys WriteScheduler Pipeline.
Local Open Scope py_scope.

(** [wipe_free_space(root, passes, block_size, verify, pattern,
    no_confirm)].  Drive selection ([interactive_drive_selection],
    [find_writable_path]) and the prompt that offers to format the whole
    device are represented by their results in the environment. *)
Definition wipe_free_space (E : env) (root : string)
           (passes block_size : Z) (verify : bool) (pattern : string)
           (no_confirm : bool) : W unit :=
  modify (set_written None) ;;                  (* locals start unbound *)
  sel <- (fun w => (writable_path E root, w)) ;;
  match sel with
  | (None, _) =>
      emit (Say "Error: Could not find a writable location.") ;;
      raise (SystemExit 1)
  | (Some root, free_space) =>
      match switch_to_format E with
      | Some (device_path, filesystem, label) =>
          emit (Say "Switching to full disk format mode...") ;;
          format_disk E device_path filesystem label no_confirm 3
                      pattern verify
      | None =>
          let free_space :=
            if free_space =? 0 then get_free_space E root else free_space in
          let fname := path_join root ".Securewipe_free_space.tmp" in
          modify (set_temp_files [fname]) ;;
          modify (fun w => set_bar (progress_bar w) false w) ;;
          modify (set_atexit true) ;;
          (if no_confirm then ret tt
           else if confirm_wipe E then ret tt
           else emit (Say "Operation aborted by user.") ;;
                raise (SystemExit 0)) ;;
          try_finally
            (for_each (range passes)
                      (wipe_free_space_pass E fname passes block_size
                                            free_space verify pattern) ;;
             total <- read_written ;;
             emit (Summary passes (Z.min (total * passes) free_space)))
            (modify (set_atexit false) ;;
             cleanup_temp_files E)
      end
  end.

(** Exit status of the interpreter for the outcome of the main program. *)
Definition exit_status (r : res unit) : Z :=
  match r with
  | Done _ => 0
  | Raised (SystemExit code) => code
  | Raised _ => 1
  end.


End Commands.

(* ================================================================== *)
(** * Python floats *)
(* ================================================================== *)

(** A finite [float] is the rational number it denotes.  Every
    operation computes the exact rational result and rounds it to
    binary64: 53 significant bits, ties to even, with the subnormal
    spacing [2^-1074] below [2^-1022].  Results at or beyond [2^1024]
    are reported by [overflows]. *)
Module Float.
Local Open Scope Q_scope.

(** [2^e] for any integer [e]. *)
Definition pow2 (e : Z) : Q :=
  if (0 <=? e)%Z then inject_Z (2 ^ e) else / inject_Z (2 ^ (- e)).

(** [floor(log2 x)] for [x > 0]. *)
Definition ilog2 (x : Q) : Z :=
  let e0 := (Z.log2 (Qnum x) - Z.log2 (Zpos (Qden x)))%Z in
  if Qle_bool (pow2 e0) x then e0 else (e0 - 1)%Z.

(** Nearest integer, ties to the even one. *)
Definition rne (q : Q) : Z :=
  let f := Qfloor q in
  match Qcompare (q - inject_Z f) (1 # 2) with
  | Lt => f
  | Gt => (f + 1)%Z
  | Eq => if Z.even f then f else (f + 1)%Z
  end.

(** Exponent of the unit in the last place of [x > 0]. *)
Definition ulp_exp (x : Q) : Z := (Z.max (ilog2 x) (-1022) - 52)%Z.

Definition round53_pos (x : Q) : Q :=
  inject_Z (rne (x * pow2 (- ulp_exp x))) * pow2 (ulp_exp x).

(** Rounding of an exact result to the nearest binary64 number. *)
Definition round53 (x : Q) : Q :=
  Qred (match Qcompare x 0 with
        | Eq => 0
        | Gt => round53_pos x
        | Lt => - round53_pos (- x)
        end).

(** The rounded result is too large for a finite float. *)
Definition overflows (x : Q) : bool := Qle_bool (pow2 1024) (Qabs x).

(** [float(n)] for an [int]; also the implicit conversion of an [int]
    operand.  Python raises [OverflowError] when [n] is too large. *)
Definition of_int (n : Z) : Py.res Q :=
  let r := round53 (inject_Z n) in
  if overflows r then Py.Raised Py.OverflowError else Py.Done r.

Definition mul (x y : Q) : Q := round53 (x * y).
Definition div (x y : Q) : Q := round53 (x / y).

(** [int(x)]: truncation toward zero. *)
Definition trunc (x : Q) : Z :=
  if Qle_bool 0 x then Qfloor x else Qceiling x.

(** [f"{x:.2f}"]: the exact value rounded to two decimals, ties to even. *)
Definition format_2f (x : Q) : string :=
  let h := rne (Qabs x * 100) in
  let body := (Py.digits (h / 100) ++ "."
               ++ String (Py.digit_char ((h / 10) mod 10))
                         (String (Py.digit_char (h mod 10)) ""))%string in
  if Qle_bool 0 x then body else ("-" ++ body)%string.

End Float.

(* ================================================================== *)
(** * TimeEstimator *)
(* ================================================================== *)

Module TimeEstimator.
Import Py Sys Float.
Local Open Scope Q_scope.

(** A Python number: an [int] or a (finite) [float]. *)
Inductive num : Type :=
| Int (z : Z)
| Flt (q : Q).


(** The exact value, as used by comparisons between [int] and [float]. *)
Definition value (a : num) : Q :=
  match a with
  | Int z => inject_Z z
  | Flt q => q
  end.










Section Estimate.

(** [time.time()] and the rendering of a time stamp by
    [time.strftime(..., time.localtime(t))]. *)
Variable now : Q.
Variable strftime_local : num -> string.




End Estimate.

End TimeEstimator.

(* ================================================================== *)
(** * SizeUnits: [format_size] and [parse_size] *)
(* ================================================================== *)

Module SizeUnits.
Import Py Float.

(** Characters are code points below 256. *)
Definition code (c : ascii) : nat := nat_of_ascii c.

Definition is_digit (c : ascii) : bool :=
  ((48 <=? code c) && (code c <=? 57))%nat.

(** [[0-9,.]] *)
Definition is_num_char (c : ascii) : bool :=
  is_digit c || Ascii.eqb c "," || Ascii.eqb c ".".

(** [[A-Za-z]] *)
Definition is_alpha (c : ascii) : bool :=
  (((65 <=? code c) && (code c <=? 90))
   || ((97 <=? code c) && (code c <=? 122)))%nat.

(** [\s] and the white space [int()] strips: TAB..CR, FS..US, space,
    NEL and the no-break space. *)
Definition is_space (c : ascii) : bool :=
  (((9 <=? code c) && (code c <=? 13))
   || ((28 <=? code c) && (code c <=? 32))
   || (code c =? 133) || (code c =? 160))%nat.

(** Longest prefix whose characters satisfy [p], and the rest. *)
Fixpoint span (p : ascii -> bool) (s : string) : string * string :=
  match s with
  | EmptyString => (EmptyString, EmptyString)
  | String c s' =>
      if p c then let (a, b) := span p s' in (String c a, b)
      else (EmptyString, s)
  end.

Definition is_empty (s : string) : bool :=
  match s with EmptyString => true | _ => false end.

(** [re.match(r'([0-9,.]+)\s*([A-Za-z]+)', s)]: the two groups.  Each
    piece is a greedy run over a character class and the classes of
    neighbouring pieces are disjoint, so backtracking never applies. *)
Definition re_match (s : string) : option (string * string) :=
  let (g1, r1) := span is_num_char s in
  if is_empty g1 then None
  else
    let (_, r2) := span is_space r1 in
    let (g2, _) := span is_alpha r2 in
    if is_empty g2 then None else Some (g1, g2).

(** [s.replace(',', '')] *)
Fixpoint remove_commas (s : string) : string :=
  match s with
  | EmptyString => EmptyString
  | String c s' =>
      if Ascii.eqb c "," then remove_commas s' else String c (remove_commas s')
  end.

Definition digit_val (c : ascii) : Z := Z.of_nat (code c - 48).

(** Value of a run of decimal digits read after the prefix value [acc]. *)
Fixpoint digits_val (s : string) (acc : Z) : Z :=
  match s with
  | EmptyString => acc
  | String c s' => digits_val s' (10 * acc + digit_val c)
  end.

Fixpoint all_digits (s : string) : bool :=
  match s with
  | EmptyString => true
  | String c s' => is_digit c && all_digits s'
  end.

Fixpoint pow10 (n : nat) : positive :=
  match n with
  | O => 1%positive
  | S n' => (10 * pow10 n')%positive
  end.

(** The exact value [float(s)] reads from a string of digits and points:
    an integer part, an optional point and a fraction, with at least one
    digit.  [None] stands for [ValueError]. *)
Definition parse_decimal (s : string) : option Q :=
  let (ip, r) := span is_digit s in
  match r with
  | EmptyString =>
      if is_empty ip then None else Some (inject_Z (digits_val ip 0))
  | String c fp =>
      if Ascii.eqb c "." && all_digits fp
         && negb (is_empty ip && is_empty fp)
      then Some (Qmake (digits_val fp (digits_val ip 0))
                       (pow10 (String.length fp)))
      else None
  end.

(** [s.strip()] as [int()] applies it. *)
Fixpoint lstrip (s : string) : string :=
  match s with
  | EmptyString => EmptyString
  | String c s' => if is_space c then lstrip s' else s
  end.

Fixpoint rstrip (s : string) : string :=
  match s with
  | EmptyString => EmptyString
  | String c s' =>
      match rstrip s' with
      | EmptyString => if is_space c then EmptyString else String c EmptyString
      | t => String c t
      end
  end.

(** Digits with single underscores between them. *)
Fixpoint int_digits (s : string) (acc : Z) (after_digit : bool)
  : option Z :=
  match s with
  | EmptyString => if after_digit then Some acc else None
  | String c s' =>
      if is_digit c then int_digits s' (10 * acc + digit_val c) true
      else if Ascii.eqb c "_" && after_digit then int_digits s' acc false
      else None
  end.

(** [int(s)] for a string: surrounding white space, an optional sign,
    decimal digits.  [None] stands for [ValueError]. *)
Definition int_of_string (s : string) : option Z :=
  match lstrip (rstrip s) with
  | String "-" t => option_map Z.opp (int_digits t 0 false)
  | String "+" t => int_digits t 0 false
  | t => int_digits t 0 false
  end.

(** [for unit in [...]: if num < 1024.0: return f"{num:.2f}{unit}";
    num /= 1024.0] once [num] has become a float, then the final
    [return f"{num:.2f}PB"]. *)
Fixpoint format_size_units (num : Q) (units : list string) : string :=
  match units with
  | [] => format_2f num ++ "PB"
  | unit :: rest =>
      if Qle_bool 1024 num then format_size_units (div num 1024) rest
      else format_2f num ++ unit
  end.

(** [format_size(num)] for [None] or an [int].  The first round of the
    loop sees the [int]: it is compared exactly, and both formatting it
    with [.2f] and dividing it by [1024.0] convert it to a float. *)
Definition format_size (num : option Z) : res string :=
  match num with
  | None => Done "Unknown"
  | Some n =>
      if n =? 0 then Done "Unknown"
      else
        match of_int n with
        | Raised e => Raised e
        | Done x =>
            if n <? 1024 then Done (format_2f x ++ "B")
            else Done (format_size_units (div x 1024)
                                         ["KB"; "MB"; "GB"; "TB"])
        end
  end.

(** [int(value)] for a float that may be infinite. *)
Definition int_of_float (value : Q) : res Z :=
  if overflows value then Raised OverflowError else Done (trunc value).

(** [int(value * c)] for an [int] factor [c] that is a power of two. *)
Definition int_of_scaled (value : Q) (c : Z) : res Z :=
  if overflows value then Raised OverflowError
  else int_of_float (mul value (inject_Z c)).

(** [parse_size(size_str)] for [None] or a string. *)
Definition parse_size (size_str : option string) : res Z :=
  match size_str with
  | None => Done 0
  | Some s =>
      if is_empty s || String.eqb s "Unknown" then Done 0
      else
        match re_match s with
        | None =>
            match int_of_string s with
            | Some z => Done z
            | None => Done 0
            end
        | Some (g1, g2) =>
            match parse_decimal (remove_commas g1) with
            | None => Raised ValueError
            | Some q =>
                let value := round53 q in
                let unit := upper g2 in
                if String.eqb unit "B" then int_of_float value
                else if String.eqb unit "KB" || String.eqb unit "K"
                then int_of_scaled value 1024
                else if String.eqb unit "MB" || String.eqb unit "M"
                then int_of_scaled value (1024 ^ 2)
                else if String.eqb unit "GB" || String.eqb unit "G"
                then int_of_scaled value (1024 ^ 3)
                else if String.eqb unit "TB" || String.eqb unit "T"
                then int_of_scaled value (1024 ^ 4)
                else if String.eqb unit "PB" || String.eqb unit "P"
                then int_of_scaled value (1024 ^ 5)
                else Done 0
            end
        end
  end.

End SizeUnits.

(* ================================================================== *)
(** * Reasoning about traces *)
(* ================================================================== *)

Module TraceLogic.
Import Py Sys.

(** [yields I P Q c]: from a store satisfying the invariant [I], running
    [c] keeps [I], only appends events satisfying [P] to the trace, and
    a value it returns satisfies [Q]. *)
Definition yields {A} (I : world -> Prop) (P : event -> Prop)
           (Q : A -> Prop) (c : W A) : Prop :=
  forall w, I w ->
    I (snd (c w)) /\
    (exists evs, trace (snd (c w)) = (trace w ++ evs)%list /\ Forall P evs) /\
    (forall a, fst (c w) = Done a -> Q a).

Definition anything {A} (a : A) : Prop := True.

(** An invariant that ignores the disk, the registry, the entropy
    position, the [atexit] table and the progress bar. *)
Record stable (I : world -> Prop) : Prop := {
  stable_disk : forall w d, I w -> I (set_disk d w);
  stable_temp_files : forall w t, I w -> I (set_temp_files t w);
  stable_entropy_pos : forall w n, I w -> I (set_entropy_pos n w);
  stable_atexit : forall w b, I w -> I (set_atexit b w);
  stable_bar : forall w b c, I w -> I (set_bar b c w)
}.

(** Events of the wipe that neither hand a block to [f.write] nor belong
    to the pipeline around it. *)
Definition housekeeping (e : event) : Prop :=
  match e with
  | Wrote _ _ _ | WriteFault _ _ _ => False
  | Ran _ _ | FormatCmd _ | WipeStart _ => False
  | _ => True
  end.

(** Events that do not record a successful write. *)
Definition quiet (e : event) : Prop :=
  match e with
  | Wrote _ _ _ => False
  | _ => True
  end.

(** What the claim about blocks asks of every event: a block handed to
    [f.write] has exactly [block_size] bytes, and the counter recorded
    after a successful write is a multiple of [block_size]. *)
Definition block_sized (block_size : Z) (e : event) : Prop :=
  match e with
  | Wrote _ chunk total => len chunk = block_size /\ (block_size | total)
  | WriteFault _ chunk _ => len chunk = block_size
  | _ => True
  end.

(** The counter values recorded by the successful writes of a trace. *)
Fixpoint totals (tr : list event) : list Z :=
  match tr with
  | [] => []
  | Wrote _ _ total :: tr' => total :: totals tr'
  | _ :: tr' => totals tr'
  end.

(** [block_size, 2*block_size, ..., k*block_size] *)
Definition multiples (block_size : Z) (k : nat) : list Z :=
  map (fun j => Z.of_nat j * block_size) (seq 1 k).

(** Invariant of one pass that started when the recorded totals were
    [T0]: [k] blocks went through, the counter is [k * block_size] and
    the totals recorded since are its successive values. *)
Definition counting_from (block_size : Z) (T0 : list Z) (w : world)
  : Prop :=
  exists k : nat,
    written w = Some (Z.of_nat k * block_size) /\
    totals (trace w) = (T0 ++ multiples block_size k)%list.

(** Invariant of a whole run: no pass has begun, or one is counting. *)
Definition counting (block_size : Z) (w : world) : Prop :=
  written w = None \/ exists T0, counting_from block_size T0 w.

(** What the lemmas on the write loops need of an invariant [I] and an
    event predicate [P]. *)
Record wipe_logic (block_size : Z) (I : world -> Prop)
       (P : event -> Prop) : Prop := {
  wl_stable : stable I;
  wl_log : forall w e, quiet e -> I w -> I (log e w);
  wl_event : forall e, housekeeping e -> P e;
  wl_step : forall w n f c,
      I w -> written w = Some n -> len c = block_size ->
      I (log (Wrote f c (n + block_size))
             (set_written (Some (n + block_size)) w)) /\
      P (Wrote f c (n + block_size));
  wl_fault : forall f c e, len c = block_size -> P (WriteFault f c e)
}.

(** [runs T c]: from every store [c] appends some events [evs] to the
    trace and ends with a result [r] such that [T evs r]. *)
Definition runs {A} (T : list event -> res A -> Prop) (c : W A) : Prop :=
  forall w, exists evs,
    trace (snd (c w)) = (trace w ++ evs)%list /\ T evs (fst (c w)).

(** A result other than a pending [sys.exit]. *)
Definition no_exit {A} (r : res A) : Prop :=
  match r with
  | Raised e => is_Exception e = true
  | Done _ => True
  end.

(** A failure of the hidden-area stage and the steps of the pipeline
    that follow the stage, as an observer of the trace recognises them. *)
Inductive milestone : Type :=
| HiddenFailed | DidErase | DidSmart | DidFormat | DidWipe | DidReformat.

Definition milestone_of (e : event) : option milestone :=
  match e with
  | Ran HiddenAreaCheck false | Ran HiddenAreaRemoval false => Some HiddenFailed
  | Ran EnhancedErase _ => Some DidErase
  | Ran SmartClear _ => Some DidSmart
  | FormatCmd step =>
      if String.eqb step "Formatting" then Some DidFormat
      else if String.eqb step "Final formatting" then Some DidReformat
      else None
  | WipeStart _ => Some DidWipe
  | _ => None
  end.

Fixpoint milestones (tr : list event) : list milestone :=
  match tr with
  | [] => []
  | e :: tr' =>
      match milestone_of e with
      | Some m => m :: milestones tr'
      | None => milestones tr'
      end
  end.

Definition unmarked (e : event) : Prop := milestone_of e = None.

(** [marks L R]: the events show the milestones [L], in this order, and
    the result satisfies [R]. *)
Definition marks {A} (L : list milestone) (R : res A -> Prop)
           (evs : list event) (r : res A) : Prop :=
  milestones evs = L /\ R r.

Definition is_done {A} (r : res A) : Prop := exists a, r = Done a.

(** [stays c]: [c] never ends in a pending [sys.exit]. *)
Definition stays {A} (c : W A) : Prop := forall w, no_exit (fst (c w)).

(** Events that belong to the free-space wipe or to the final format. *)
Definition wipe_or_reformat (e : event) : bool :=
  match e with
  | WipeStart _ | PassBanner _ _ _ | Opened _ | Wrote _ _ _
  | WriteFault _ _ _ | PassComplete _ _ | Summary _ _ => true
  | FormatCmd step => String.eqb step "Final formatting"
  | _ => false
  end.

(** Events of the pipeline before the free-space wipe. *)
Definition calm (e : event) : Prop := wipe_or_reformat e = false.

(** Ways a step before the wipe ends the run. *)
Definition exits_with {A} (code : Z) (evs : list event) (r : res A) : Prop :=
  Forall calm evs /\ r = Raised (SystemExit code).

Definition goes_on {A} (evs : list event) (r : res A) : Prop :=
  Forall calm evs /\ exists a, r = Done a.

Definition breaks_off {A} (evs : list event) (r : res A) : Prop :=
  Forall calm evs /\
  exists e, r = Raised e /\ (e = SystemExit 1 \/ exists n, e = OSError n).

(** The platform's format command for [step] fails: it returns a
    non-zero status or cannot be run. *)
Definition format_fails (E : env) (step : string) : Prop :=
  match format_command E step with
  | Exited rc => rc <> 0
  | CmdRaises _ => True
  end.

(** The platform has a format command for the file system. *)
Definition format_supported (E : env) (filesystem : string) : Prop :=
  match platform_system E with
  | Darwin | Windows => True
  | Linux => mem (lower filesystem) Pipeline.linux_filesystems = true
  | OtherSystem => False
  end.

(** The hidden-area stage fails: the check meets an internal error, or
    it finds hidden areas and their removal does not succeed. *)
Definition hidden_area_fails (E : env) : Prop :=
  match platform_system E, hpa_check E with
  | Linux, ProbeRaises | Darwin, ProbeRaises => True
  | Linux, Answer true => hpa_removal E <> Answer true
  | Darwin, Answer true => True
  | _, _ => False
  end.

(** No pass is interrupted by CTRL+C. *)
Definition not_interrupted (E : env) : Prop :=
  forall p, stop (io E p) <> Sigint.

(** [disk_path] passes the existence check at the head of [format_disk]. *)
Definition disk_found (E : env) : Prop :=
  platform_system E = Windows \/ disk_path_exists E = true.

(** The user is not asked, or types the confirmation text. *)
Definition confirmed (E : env) (no_confirm : bool) : Prop :=
  no_confirm = true \/ typed_confirmation E = "I UNDERSTAND".


End TraceLogic.

(* ================================================================== *)
(** * Sample environments *)
(* ================================================================== *)

Module Samples.
Import Py Sys.

(** A Linux machine on which every external tool succeeds, the target
    is writable and mounted at [/mnt/usb], and the user confirms.  The
    outcome of the passes and of [os.remove] is left to the caller. *)
Definition machine (pio : Z -> pass_io) (rm : string -> bool)
           (free : Z) : env := {|
  platform_system := Linux;
  entropy := fun _ => x2a;
  removable := rm;
  io := pio;
  get_free_space := fun _ => free;
  writable_path := fun root => Done (Some root, free);
  switch_to_format := None;
  confirm_wipe := true;
  disk_path_exists := true;
  cache_flush := true;
  remapped_sectors := true;
  hpa_check := Answer false;
  hpa_removal := Answer false;
  enhanced_erase := true;
  smart_clear := true;
  typed_confirmation := "I UNDERSTAND";
  format_command := fun _ => Exited 0;
  disk_mountpoint := Some "/mnt/usb"
|}.

(** Two blocks fit, then the device is full. *)
Definition fills_up : Z -> pass_io :=
  fun _ => {| writes_ok := 2; stop := WriteRaises ENOSPC |}.


(** No block fits: the device is full from the start. *)
Definition already_full : Z -> pass_io :=
  fun _ => {| writes_ok := 0; stop := WriteRaises ENOSPC |}.


Definition always (b : bool) : string -> bool := fun _ => b.

(** A volume that reports 0 bytes free although two blocks can still be
    written (blocks reserved for the administrator). *)
Definition reserved_only : env := machine fills_up (always true) 0.

(** The temporary file of [wipe_free_space] under [/mnt/usb]. *)
Definition tmp : string := "/mnt/usb/.Securewipe_free_space.tmp".

(** The same machine with another outcome of the hidden-area probes. *)
Definition with_hpa (E : env) (check removal : probe) : env := {|
  platform_system := platform_system E;
  entropy := entropy E;
  removable := removable E;
  io := io E;
  get_free_space := get_free_space E;
  writable_path := writable_path E;
  switch_to_format := switch_to_format E;
  confirm_wipe := confirm_wipe E;
  disk_path_exists := disk_path_exists E;
  cache_flush := cache_flush E;
  remapped_sectors := remapped_sectors E;
  hpa_check := check;
  hpa_removal := removal;
  enhanced_erase := enhanced_erase E;
  smart_clear := smart_clear E;
  typed_confirmation := typed_confirmation E;
  format_command := format_command E;
  disk_mountpoint := disk_mountpoint E
|}.

(** The same machine with another outcome of the format commands. *)
Definition with_format (E : env) (fmt : string -> cmd) : env := {|
  platform_system := platform_system E;
  entropy := entropy E;
  removable := removable E;
  io := io E;
  get_free_space := get_free_space E;
  writable_path := writable_path E;
  switch_to_format := switch_to_format E;
  confirm_wipe := confirm_wipe E;
  disk_path_exists := disk_path_exists E;
  cache_flush := cache_flush E;
  remapped_sectors := remapped_sectors E;
  hpa_check := hpa_check E;
  hpa_removal := hpa_removal E;
  enhanced_erase := enhanced_erase E;
  smart_clear := smart_clear E;
  typed_confirmation := typed_confirmation E;
  format_command := fmt;
  disk_mountpoint := disk_mountpoint E
|}.

(** A machine whose format commands all return status 1. *)
Definition bad_format : env :=
  with_format (machine fills_up (always true) 100) (fun _ => Exited 1).

(** A machine whose disk has hidden areas that [hdparm] cannot remove. *)
Definition hidden_stuck : env :=
  with_hpa (machine fills_up (always true) 100) (Answer true) (Answer false).



End Samples.

(* ================================================================== *)
(** * Relations between stores used to describe a pass *)
(* ================================================================== *)

Module Frames.
Import Py Sys.





(** The trace of [w'] is that of [w] followed by events satisfying [P]. *)
Definition grows (P : event -> Prop) (w w' : world) : Prop :=
  exists evs, trace w' = (trace w ++ evs)%list /\ Forall P evs.





(** What a pass tells the user about its end: an error line, or that
    the pass is complete. *)
Inductive report : Type :=
| Failed (e : exn)
| Completed (p : Z).

Definition report_of (e : event) : option report :=
  match e with
  | ErrLine x => Some (Failed x)
  | PassComplete p _ => Some (Completed p)
  | _ => None
  end.

Fixpoint reports (tr : list event) : list report :=
  match tr with
  | [] => []
  | e :: tr' =>
      match report_of e with
      | Some r => r :: reports tr'
      | None => reports tr'
      end
  end.

(** From [w] to [w'] the trace grew by events whose reports are [L]. *)
Definition told (L : list report) (w w' : world) : Prop :=
  exists evs, trace w' = (trace w ++ evs)%list /\ reports evs = L.



End Frames.

(* ================================================================== *)
(** * Facts about the trace logic *)
(* ================================================================== *)

Create HintDb yields.

Module TraceFacts.
Import Py Sys TraceLogic.
Local Open Scope py_scope.

Lemma no_events (P : event -> Prop) (w : world) :
  exists evs, trace w = (trace w ++ evs)%list /\ Forall P evs.
Proof. exists []; rewrite app_nil_r; auto. Qed.

Lemma more_events (P : event -> Prop) (t0 t1 t2 : list event) :
  (exists evs, t1 = (t0 ++ evs)%list /\ Forall P evs) ->
  (exists evs, t2 = (t1 ++ evs)%list /\ Forall P evs) ->
  exists evs, t2 = (t0 ++ evs)%list /\ Forall P evs.
Proof.
  intros [e1 [H1 F1]] [e2 [H2 F2]]. exists (e1 ++ e2)%list.
  subst. rewrite app_assoc. split; [reflexivity | apply Forall_app; auto].
Qed.

Section Combinators.
Variable I : world -> Prop.
Variable P : event -> Prop.

Lemma yields_ret {A} (Q : A -> Prop) (a : A) : Q a -> yields I P Q (ret a).
Proof.
  intros Hq w Hw; simpl. split; [|split]; [assumption | apply no_events |].
  intros a' [= <-]; assumption.
Qed.

Lemma yields_raise {A} (Q : A -> Prop) (e : exn) :
  yields I P Q (@raise world A e).
Proof.
  intros w Hw; simpl. split; [|split]; [assumption | apply no_events |].
  intros a' [=].
Qed.

Lemma yields_bind {A B} (Q : A -> Prop) (R : B -> Prop)
      (c : W A) (k : A -> W B) :
  yields I P Q c -> (forall a, Q a -> yields I P R (k a)) ->
  yields I P R (bind c k).
Proof.
  intros Hc Hk w Hw. unfold bind.
  destruct (Hc w Hw) as [Hi [Ht Hq]].
  destruct (c w) as [[a|e] w1]; simpl in *.
  - destruct (Hk a (Hq a eq_refl) w1 Hi) as [Hi2 [Ht2 Hq2]].
    split; [|split]; [assumption | eapply more_events; eauto | assumption].
  - split; [|split]; [assumption | assumption | intros a [=]].
Qed.

Lemma yields_try_except {A} (Q : A -> Prop) (c : W A) sel (h : exn -> W A) :
  yields I P Q c -> (forall e, yields I P Q (h e)) ->
  yields I P Q (try_except c sel h).
Proof.
  intros Hc Hh w Hw. unfold try_except.
  destruct (Hc w Hw) as [Hi [Ht Hq]].
  destruct (c w) as [[a|e] w1]; simpl in *.
  - split; [|split]; assumption.
  - destruct (sel e).
    + destruct (Hh e w1 Hi) as [Hi2 [Ht2 Hq2]].
      split; [|split]; [assumption | eapply more_events; eauto | assumption].
    + simpl. split; [|split]; [assumption | assumption | intros a [=]].
Qed.

Lemma yields_try_finally {A} (Q : A -> Prop) (c : W A) (f : W unit) :
  yields I P Q c -> yields I P anything f -> yields I P Q (try_finally c f).
Proof.
  intros Hc Hf w Hw. unfold try_finally.
  destruct (Hc w Hw) as [Hi [Ht Hq]].
  destruct (c w) as [r w1]; simpl in *.
  destruct (Hf w1 Hi) as [Hi2 [Ht2 _]].
  destruct (f w1) as [[u|e] w2]; simpl in *.
  - split; [|split]; [assumption | eapply more_events; eauto | assumption].
  - split; [|split]; [assumption | eapply more_events; eauto | intros a [=]].
Qed.

Lemma yields_for_each {A} (xs : list A) (body : A -> W unit) :
  (forall x, yields I P anything (body x)) ->
  yields I P anything (for_each xs body).
Proof.
  intros Hb. induction xs as [|x xs IH]; simpl.
  - apply yields_ret; exact Logic.I.
  - eapply yields_bind; [apply Hb | intros _ _; exact IH].
Qed.

Lemma yields_emit (e : event) :
  (forall w, I w -> I (log e w)) -> P e -> yields I P anything (emit e).
Proof.
  intros Hs Hp w Hw; simpl.
  split; [|split]; [apply Hs; assumption | | intros; exact Logic.I].
  exists [e]; auto.
Qed.

Lemma yields_modify (f : world -> world) :
  (forall w, I w -> I (f w)) -> (forall w, trace (f w) = trace w) ->
  yields I P anything (modify f).
Proof.
  intros Hi Ht w Hw; simpl.
  split; [|split]; [auto | rewrite Ht; apply no_events | intros; exact Logic.I].
Qed.

(** A computation that reads the store without changing it. *)
Lemma yields_pure {A} (Q : A -> Prop) (c : W A) :
  (forall w, snd (c w) = w) ->
  (forall w a, I w -> fst (c w) = Done a -> Q a) ->
  yields I P Q c.
Proof.
  intros H Hq w Hw.
  split; [rewrite H; assumption|].
  split; [rewrite H; apply no_events | intros a Ha; eapply Hq; eauto].
Qed.

Lemma yields_anything {A} (Q : A -> Prop) (c : W A) :
  yields I P Q c -> yields I P anything c.
Proof.
  intros H w Hw. destruct (H w Hw) as [Hi [Ht _]].
  split; [|split]; [assumption | assumption | intros; exact Logic.I].
Qed.

End Combinators.

(** From a fresh store the whole trace satisfies the event predicate. *)
Lemma yields_boot {A} I P (Q : A -> Prop) (c : W A) files :
  I (boot files) -> yields I P Q c ->
  Forall P (trace (snd (c (boot files)))).
Proof.
  intros Hb H. destruct (H _ Hb) as [_ [[evs [Ht Hf]] _]].
  rewrite Ht; simpl; assumption.
Qed.


End TraceFacts.

(* ================================================================== *)
(** * Facts about the write loops *)
(* ================================================================== *)

Module WriteFacts.
Import Py Sys WriteScheduler Pipeline Commands TraceLogic TraceFacts.
Local Open Scope py_scope.

(** ** Lengths of blocks *)

Lemma length_repeat_bytes (b : list byte) (n : nat) :
  List.length (repeat_bytes b n) = (n * List.length b)%nat.
Proof.
  induction n as [|n IH]; simpl; [reflexivity|].
  rewrite length_app, IH; lia.
Qed.

Lemma len_bytes_mul_one (b : byte) (n : Z) :
  0 <= n -> len (bytes_mul [b] n) = n.
Proof.
  intros Hn. unfold len, bytes_mul. rewrite length_repeat_bytes.
  simpl. lia.
Qed.

Lemma len_tile (pat : list byte) (n : Z) :
  0 <= n -> (0 < List.length pat)%nat -> len (tile pat n) = n.
Proof.
  intros Hn Hp. unfold tile, slice_to, len.
  destruct (Z.leb_spec 0 n) as [_|]; [|lia].
  rewrite length_firstn. unfold bytes_mul. rewrite length_repeat_bytes.
  set (l := Z.of_nat (List.length pat)).
  assert (Hl : 0 < l) by (unfold l; lia).
  assert (Hq : 0 <= n / l) by (apply Z.div_pos; lia).
  assert (Hlt : n < l * (n / l + 1)).
  { pose proof (Z.mod_pos_bound n l Hl). pose proof (Z.div_mod n l). lia. }
  assert (Hc : Z.of_nat (Z.to_nat (n / l + 1) * List.length pat) = (n / l + 1) * l).
  { rewrite Nat2Z.inj_mul, Z2Nat.id by lia. reflexivity. }
  lia.
Qed.


(** ** Rewriting the first step of a sequence *)

Lemma bind_emit {B} (e : event) (k : unit -> W B) (w : world) :
  bind (emit e) k w = k tt (log e w).
Proof. reflexivity. Qed.

Lemma bind_modify {B} (f : world -> world) (k : unit -> W B) (w : world) :
  bind (modify f) k w = k tt (f w).
Proof. reflexivity. Qed.

(** ** The pieces of a pass, for any invariant and event predicate that
    fit the write loops *)

Section Generic.
Variable E : env.
Variable block_size : Z.
Variable I : world -> Prop.
Variable P : event -> Prop.
Hypothesis Hbs : 0 < block_size.
Hypothesis HL : wipe_logic block_size I P.

Let Hst : stable I := wl_stable _ _ _ HL.

Lemma housekeeping_quiet (e : event) : housekeeping e -> quiet e.
Proof. destruct e; simpl; auto. Qed.

Lemma keep_log (e : event) (w : world) : housekeeping e -> I w -> I (log e w).
Proof. intros He; apply (wl_log _ _ _ HL), housekeeping_quiet, He. Qed.

Lemma yields_say {A} (Q : A -> Prop) (e : event) (k : W A) :
  housekeeping e -> yields I P Q k -> yields I P Q (bind (emit e) (fun _ => k)).
Proof.
  intros He Hk. eapply yields_bind; [|intros _ _; exact Hk].
  apply yields_emit; [intros w; apply keep_log; exact He
                     | apply (wl_event _ _ _ HL); exact He].
Qed.

Lemma yields_note (e : event) :
  housekeeping e -> yields I P anything (emit e).
Proof.
  intros He.
  apply yields_emit; [intros w; apply keep_log; exact He
                     | apply (wl_event _ _ _ HL); exact He].
Qed.

Lemma yields_path_exists (f : string) :
  yields I P anything (path_exists f).
Proof. apply yields_pure; [reflexivity | intros; exact Logic.I]. Qed.

Lemma yields_os_remove (f : string) :
  yields I P anything (os_remove E f).
Proof.
  intros w Hw. unfold os_remove. destruct (removable E f); simpl.
  - split; [|split]; [| exists [Removed f]; split; [reflexivity|] | intros; exact Logic.I].
    + apply keep_log; [exact Logic.I|]. apply (stable_disk _ Hst); exact Hw.
    + constructor; [apply (wl_event _ _ _ HL); exact Logic.I | constructor].
  - split; [|split]; [| exists [RemoveFault f]; split; [reflexivity|] | intros a [=]].
    + apply keep_log; [exact Logic.I | exact Hw].
    + constructor; [apply (wl_event _ _ _ HL); exact Logic.I | constructor].
Qed.

Lemma yields_open_wb (f : string) :
  yields I P anything (open_wb f).
Proof.
  intros w Hw. unfold open_wb; simpl.
  split; [|split]; [| exists [Opened f]; split; [reflexivity|] | intros; exact Logic.I].
  - apply keep_log; [exact Logic.I|]. apply (stable_disk _ Hst); exact Hw.
  - constructor; [apply (wl_event _ _ _ HL); exact Logic.I | constructor].
Qed.

Lemma yields_urandom (n : Z) :
  yields I P (fun c => len c = n) (urandom E n).
Proof.
  intros w Hw. unfold urandom. destruct (Z.ltb_spec n 0); simpl.
  - split; [|split]; [exact Hw | apply no_events | intros a [=]].
  - split; [|split]; [apply (stable_entropy_pos _ Hst); exact Hw | apply no_events |].
    intros a [= <-]. unfold len. rewrite length_map, length_seq. lia.
Qed.

Lemma yields_tqdm_new : yields I P anything tqdm_new.
Proof.
  apply yields_modify; [intros w; apply (stable_bar _ Hst) | reflexivity].
Qed.

Lemma yields_tqdm_draw : yields I P anything tqdm_draw.
Proof.
  intros w Hw. unfold tqdm_draw.
  destruct (progress_bar w) as [b|]; [destruct (disable b)|]; simpl.
  - split; [|split]; [exact Hw | apply no_events | intros; exact Logic.I].
  - split; [|split]; [| exists [BarDraw]; split; [reflexivity|] | intros; exact Logic.I].
    + apply keep_log; [exact Logic.I | exact Hw].
    + constructor; [apply (wl_event _ _ _ HL); exact Logic.I | constructor].
  - split; [|split]; [exact Hw | apply no_events | intros; exact Logic.I].
Qed.

Lemma yields_container_off :
  yields I P anything (modify (fun w => set_bar (progress_bar w) false w)).
Proof.
  apply yields_modify; [intros w; apply (stable_bar _ Hst) | reflexivity].
Qed.

Lemma yields_set_atexit (b : bool) :
  yields I P anything (modify (set_atexit b)).
Proof.
  apply yields_modify; [intros w; apply (stable_atexit _ Hst) | reflexivity].
Qed.

Lemma yields_wfs_chunk (mode : string) :
  yields I P (fun c => len c = block_size)
         (wipe_free_space_chunk E mode block_size).
Proof.
  unfold wipe_free_space_chunk.
  destruct (String.eqb mode "random"); [apply yields_urandom|].
  destruct (String.eqb mode "ones");
    [apply yields_ret; apply len_bytes_mul_one; lia|].
  destruct (String.eqb mode "ticks");
    [apply yields_ret; apply len_tile; [lia | simpl; lia]|].
  destruct (String.eqb mode "haha");
    [apply yields_ret; apply len_tile; [lia | simpl; lia]|].
  apply yields_ret; apply len_bytes_mul_one; lia.
Qed.

Lemma yields_fd_chunk (mode : string) :
  yields I P (fun c => len c = block_size)
         (format_disk_chunk E mode block_size).
Proof.
  unfold format_disk_chunk.
  destruct (String.eqb mode "random"); [apply yields_urandom|].
  destruct (String.eqb mode "ones");
    [apply yields_ret; apply len_bytes_mul_one; lia|].
  destruct (String.eqb mode "zeroes");
    [apply yields_ret; apply len_bytes_mul_one; lia|].
  apply yields_urandom.
Qed.

(** [written += block_size] followed by the record of the write. *)
Lemma yields_write_step {A} (Q : A -> Prop) (f : string) (c : list byte)
      (k : Z -> W A) :
  len c = block_size ->
  (forall total, yields I P Q (k total)) ->
  yields I P Q (bind (add_written block_size)
                     (fun total => bind (emit (Wrote f c total))
                                        (fun _ => k total))).
Proof.
  intros Hc Hk w Hw.
  destruct (written w) as [n|] eqn:Hn.
  - assert (Heq : bind (add_written block_size)
                       (fun total => bind (emit (Wrote f c total))
                                          (fun _ => k total)) w
                  = k (n + block_size)
                      (log (Wrote f c (n + block_size))
                           (set_written (Some (n + block_size)) w))).
    { unfold bind, add_written, emit, modify. rewrite Hn. reflexivity. }
    rewrite Heq.
    destruct (wl_step _ _ _ HL w n f c Hw Hn Hc) as [Hi Hp].
    destruct (Hk (n + block_size) _ Hi) as [Hi2 [Ht2 Hq2]].
    split; [exact Hi2|]. split; [|exact Hq2].
    eapply more_events; [|exact Ht2].
    exists [Wrote f c (n + block_size)]. split; [reflexivity|].
    constructor; [exact Hp | constructor].
  - assert (Heq : bind (add_written block_size)
                       (fun total => bind (emit (Wrote f c total))
                                          (fun _ => k total)) w
                  = (Raised OtherError, w)).
    { unfold bind, add_written. rewrite Hn. reflexivity. }
    rewrite Heq. simpl.
    split; [|split]; [exact Hw | apply no_events | intros a [=]].
Qed.

Lemma yields_flush (f : string) (n : Z) :
  yields I P anything (occasional_flush f n block_size).
Proof.
  unfold occasional_flush.
  destruct (block_size * 100 =? 0); [apply yields_raise|].
  destruct (n mod (block_size * 100) =? 0);
    [apply yields_note; exact Logic.I | apply yields_ret; exact Logic.I].
Qed.

Lemma yields_cleanup_one (f : string) :
  yields I P anything (cleanup_one E f).
Proof.
  unfold cleanup_one. apply yields_try_except.
  - eapply yields_bind; [apply yields_path_exists|]. intros present _.
    destruct present; [|apply yields_ret; exact Logic.I].
    eapply yields_bind; [apply yields_os_remove|]. intros _ _.
    apply yields_note; exact Logic.I.
  - intros e. apply yields_note; exact Logic.I.
Qed.

Lemma yields_cleanup : yields I P anything (cleanup_temp_files E).
Proof.
  unfold cleanup_temp_files.
  eapply yields_bind; [apply yields_pure; [reflexivity | intros; exact Logic.I]|].
  intros w0 _. apply yields_for_each. intros x. apply yields_cleanup_one.
Qed.

Lemma yields_signal_handler : yields I P anything (signal_handler E).
Proof.
  unfold signal_handler.
  eapply yields_bind.
  { apply yields_modify; [|intros w; destruct (container w); reflexivity].
    intros w Hw. destruct (container w); [apply (stable_bar _ Hst)|]; exact Hw. }
  intros _ _. apply yields_say; [exact Logic.I|].
  eapply yields_bind; [apply yields_cleanup|]. intros _ _.
  apply yields_say; [exact Logic.I|]. apply yields_raise.
Qed.

Lemma yields_wfs_loop (fname mode : string) (n : nat) (s : stopper) :
  yields I P anything (wipe_free_space_loop E fname mode block_size n s).
Proof.
  induction n as [|n IH]; simpl.
  - destruct s as [errno|].
    + eapply yields_bind; [apply yields_wfs_chunk|]. intros c Hc.
      eapply yields_bind; [|intros _ _; apply yields_raise].
      apply yields_emit; [|apply (wl_fault _ _ _ HL); exact Hc].
      intros w Hw. apply (wl_log _ _ _ HL); [exact Logic.I | exact Hw].
    + apply yields_signal_handler.
  - eapply yields_bind; [apply yields_wfs_chunk|]. intros c Hc.
    apply yields_write_step; [exact Hc|]. intros total.
    eapply yields_bind; [apply yields_tqdm_draw|]. intros _ _.
    eapply yields_bind; [apply yields_flush|]. intros _ _.
    exact IH.
Qed.

Lemma yields_fd_loop (fname mode : string) (n : nat) (s : stopper) :
  yields I P anything (format_disk_loop E fname mode block_size n s).
Proof.
  induction n as [|n IH]; simpl.
  - destruct s as [errno|].
    + eapply yields_bind; [apply yields_fd_chunk|]. intros c Hc.
      eapply yields_bind.
      { apply yields_emit; [|apply (wl_fault _ _ _ HL); exact Hc].
        intros w Hw. apply (wl_log _ _ _ HL); [exact Logic.I | exact Hw]. }
      intros _ _. destruct (errno =? ENOSPC);
        [apply yields_ret; exact Logic.I | apply yields_note; exact Logic.I].
    + apply yields_signal_handler.
  - eapply yields_bind; [apply yields_fd_chunk|]. intros c Hc.
    apply yields_write_step; [exact Hc|]. intros total.
    eapply yields_bind; [apply yields_tqdm_draw|]. intros _ _.
    eapply yields_bind; [apply yields_flush|]. intros _ _.
    exact IH.
Qed.

Lemma yields_remove_and_unregister (fname : string) :
  yields I P anything (remove_and_unregister E fname).
Proof.
  unfold remove_and_unregister.
  eapply yields_bind; [apply yields_path_exists|]. intros present _.
  destruct present; [|apply yields_ret; exact Logic.I].
  eapply yields_bind; [apply yields_os_remove|]. intros _ _.
  apply yields_modify; [|intros w; destruct (mem fname (temp_files w)); reflexivity].
  intros w Hw. destruct (mem fname (temp_files w));
    [apply (stable_temp_files _ Hst)|]; exact Hw.
Qed.

Lemma yields_register (fname : string) :
  yields I P anything (register fname).
Proof.
  unfold register.
  apply yields_modify; [|intros w; destruct (mem fname (temp_files w)); reflexivity].
  intros w Hw. destruct (mem fname (temp_files w));
    [|apply (stable_temp_files _ Hst)]; exact Hw.
Qed.

Lemma yields_read_written : yields I P anything read_written.
Proof.
  apply yields_pure; [|intros; exact Logic.I].
  intros w. unfold read_written. destruct (written w); reflexivity.
Qed.

Lemma yields_wfs_fill (fname mode : string) (free_space : Z)
      (verify : bool) (p : Z) :
  yields I P anything
         (wipe_free_space_fill E fname block_size free_space verify mode p).
Proof.
  unfold wipe_free_space_fill.
  eapply yields_bind; [apply yields_tqdm_new|]. intros _ _.
  eapply yields_bind.
  { apply yields_try_finally.
    - apply yields_try_except.
      + eapply yields_bind; [apply yields_open_wb|]. intros _ _.
        apply yields_wfs_loop.
      + intros e. destruct (unexpected_errno e);
          [apply yields_note; exact Logic.I | apply yields_ret; exact Logic.I].
    - eapply yields_bind; [apply yields_tqdm_draw|]. intros _ _.
      apply yields_try_except; [apply yields_remove_and_unregister|].
      intros e. apply yields_ret; exact Logic.I. }
  intros _ _.
  eapply yields_bind; [apply yields_read_written|]. intros total _.
  apply yields_say; [exact Logic.I|].
  destruct verify; [|apply yields_ret; exact Logic.I].
  apply yields_say; [exact Logic.I|]. apply yields_note; exact Logic.I.
Qed.

Lemma yields_fd_fill (mount_point mode : string) (free_space p : Z) :
  yields I P anything
         (format_disk_fill E mount_point block_size free_space mode p).
Proof.
  unfold format_disk_fill.
  eapply yields_bind; [apply yields_tqdm_new|]. intros _ _.
  eapply yields_bind; [apply yields_register|]. intros _ _.
  eapply yields_bind.
  { apply yields_try_except.
    - eapply yields_bind; [apply yields_path_exists|]. intros present _.
      destruct present;
        [apply yields_os_remove | apply yields_ret; exact Logic.I].
    - intros e. apply yields_ret; exact Logic.I. }
  intros _ _.
  eapply yields_bind.
  { apply yields_try_finally.
    - apply yields_try_except.
      + eapply yields_bind; [apply yields_open_wb|]. intros _ _.
        apply yields_fd_loop.
      + intros e. apply yields_note; exact Logic.I.
    - eapply yields_bind; [apply yields_tqdm_draw|]. intros _ _.
      apply yields_container_off. }
  intros _ _.
  eapply yields_bind.
  { apply yields_try_except; [apply yields_remove_and_unregister|].
    intros e. apply yields_note; exact Logic.I. }
  intros _ _.
  eapply yields_bind; [apply yields_read_written|]. intros total _.
  apply yields_note; exact Logic.I.
Qed.

End Generic.

(** ** The pass invariant *)

Lemma totals_app (a b : list event) :
  totals (a ++ b) = (totals a ++ totals b)%list.
Proof.
  induction a as [|e a IH]; simpl; [reflexivity|].
  destruct e; simpl; rewrite ?IH; reflexivity.
Qed.

Lemma totals_quiet (tr : list event) (e : event) :
  quiet e -> totals (tr ++ [e]) = totals tr.
Proof.
  intros He. rewrite totals_app. destruct e; simpl in *;
    try contradiction; apply app_nil_r.
Qed.

Lemma multiples_succ (bs : Z) (k : nat) :
  multiples bs (S k) = (multiples bs k ++ [Z.of_nat (S k) * bs])%list.
Proof.
  unfold multiples. rewrite seq_S, map_app. reflexivity.
Qed.

Lemma counting_from_logic (bs : Z) (T0 : list Z) :
  wipe_logic bs (counting_from bs T0) (block_sized bs).
Proof.
  constructor.
  - constructor; intros w x; intros; assumption.
  - intros w e He [k [Hw Ht]]. exists k. simpl.
    split; [exact Hw|]. rewrite totals_quiet; assumption.
  - intros e He. destruct e; simpl in *; try contradiction; exact Logic.I.
  - intros w n f c [k [Hw Ht]] Hn Hc. rewrite Hw in Hn. injection Hn as <-.
    split.
    + exists (S k). rewrite multiples_succ, Nat2Z.inj_succ.
      replace (Z.succ (Z.of_nat k) * bs) with (Z.of_nat k * bs + bs) by ring.
      split; [reflexivity|].
      cbn [trace log set_written]. rewrite totals_app, Ht, <- app_assoc.
      reflexivity.
    + simpl. split; [exact Hc|]. exists (Z.of_nat k + 1). lia.
  - intros f c e Hc. exact Hc.
Qed.


(** ** Claims on the pattern schedule and on block sizes *)



(** C9. Within one pass, every block handed to [f.write] has exactly
    [block_size] bytes whatever the pattern, and the counter [written]
    takes the values [block_size, 2*block_size, ...], each a multiple of
    [block_size]; this holds for a pass of [wipe_free_space] and for a
    pass of [format_disk]'s wipe step. *)
Theorem every_block_has_block_size :
  forall (E : env) (block_size : Z),
    0 < block_size ->
    (forall fname passes free_space verify pattern p w,
        exists evs k,
          trace (snd (wipe_free_space_pass E fname passes block_size
                                           free_space verify pattern p w))
          = (trace w ++ evs)%list
          /\ Forall (block_sized block_size) evs
          /\ totals evs = multiples block_size k) /\
    (forall mount_point passes free_space pattern p w,
        exists evs k,
          trace (snd (format_disk_pass E mount_point passes block_size
                                       free_space pattern p w))
          = (trace w ++ evs)%list
          /\ Forall (block_sized block_size) evs
          /\ totals evs = multiples block_size k).
Proof.
  intros E bs Hbs.
  assert (Hstart : forall (e : event) (w : world), quiet e ->
            counting_from bs (totals (trace w))
                          (set_written (Some 0) (log e w))).
  { intros e w He. exists 0%nat. split; [reflexivity|].
    cbn [trace set_written log]. rewrite totals_quiet by exact He.
    unfold multiples; simpl. rewrite app_nil_r. reflexivity. }
  assert (Hfinish : forall (e : event) (w w' : world),
            block_sized bs e ->
            counting_from bs (totals (trace w)) w' ->
            (exists evs, trace w' = (trace (set_written (Some 0) (log e w)) ++ evs)%list
                         /\ Forall (block_sized bs) evs) ->
            exists evs k, trace w' = (trace w ++ evs)%list
                          /\ Forall (block_sized bs) evs
                          /\ totals evs = multiples bs k).
  { intros e w w' He [k [_ Hk]] [evs [Ht Hf]].
    exists (e :: evs), k. cbn [trace set_written log] in Ht.
    rewrite Ht, <- app_assoc. split; [reflexivity|]. split.
    - constructor; [exact He | exact Hf].
    - rewrite Ht, <- app_assoc, totals_app in Hk.
      apply app_inv_head in Hk. exact Hk. }
  split.
  - intros fname passes free_space verify pattern p w.
    unfold wipe_free_space_pass. rewrite bind_emit, bind_modify.
    set (e := PassBanner p passes (wipe_free_space_mode pattern p)).
    destruct (yields_wfs_fill E bs _ _ Hbs
                (counting_from_logic bs (totals (trace w)))
                fname (wipe_free_space_mode pattern p) free_space verify p
                _ (Hstart e w Logic.I)) as [Hi [Ht _]].
    eapply (Hfinish e); [exact Logic.I | exact Hi | exact Ht].
  - intros mount_point passes free_space pattern p w.
    unfold format_disk_pass. rewrite bind_emit, bind_modify.
    set (e := PassBanner p passes (format_disk_mode pattern p)).
    destruct (yields_fd_fill E bs _ _ Hbs
                (counting_from_logic bs (totals (trace w)))
                mount_point (format_disk_mode pattern p) free_space p
                _ (Hstart e w Logic.I)) as [Hi [Ht _]].
    eapply (Hfinish e); [exact Logic.I | exact Hi | exact Ht].
Qed.

Lemma every_block_has_block_size_witness :
  0 < 4 /\
  exists evs k,
    trace (snd (wipe_free_space_pass
                  (Samples.machine Samples.fills_up (Samples.always true) 100)
                  "/mnt/usb/.Securewipe_free_space.tmp" 3 4 100 false
                  "ticks" 0 (boot [])))
    = (trace (boot []) ++ evs)%list
    /\ Forall (block_sized 4) evs
    /\ totals evs = multiples 4 k.
Proof.
  split; [lia|].
  destruct (every_block_has_block_size
              (Samples.machine Samples.fills_up (Samples.always true) 100) 4
              ltac:(lia)) as [Hfree _].
  exact (Hfree "/mnt/usb/.Securewipe_free_space.tmp" 3 100 false "ticks" 0
               (boot [])).
Defined.

End WriteFacts.

(* ================================================================== *)
(** * Exact outcomes of a pass *)
(* ================================================================== *)

Module PassFacts.
Import Py Sys WriteScheduler Pipeline Commands TraceLogic TraceFacts Frames WriteFacts.
Local Open Scope py_scope.





(** ** [advance] is a preorder *)






Section Loops.
Variable E : env.
Variable block_size : Z.
Hypothesis Hbs : 0 < block_size.










End Loops.


(** ** Equations for [try] *)





(** ** [kept] and [grows] *)






Lemma grows_weaken (P Q : event -> Prop) (w w' : world) :
  (forall e, P e -> Q e) -> grows P w w' -> grows Q w w'.
Proof.
  intros H [evs [Ht Hf]]. exists evs. split; [exact Ht|].
  eapply Forall_impl; eauto.
Qed.

(** ** Clean-up *)

Section Cleanup.
Variable E : env.






End Cleanup.

End PassFacts.

(* ================================================================== *)
(** * SizeUnits: special values and the failure of [parse_size] *)
(* ================================================================== *)

Module SizeFacts.
Import Py Float SizeUnits.

(** C10. [format_size] answers "Unknown" for [None] and for 0, and
    [parse_size] answers 0 for [None], the empty string, "Unknown", a
    string that is neither a number with a unit nor an integer, and an
    unknown unit.  It is not total, though: the first group of the
    pattern admits several points, and [float] raises [ValueError] on
    "1.2.3", outside any [try]; and a bare integer may be negative. *)
Theorem parse_size_raises_on_two_points :
  format_size None = Done "Unknown" /\
  format_size (Some 0) = Done "Unknown" /\
  parse_size None = Done 0 /\
  parse_size (Some "") = Done 0 /\
  parse_size (Some "Unknown") = Done 0 /\
  parse_size (Some "twelve") = Done 0 /\
  parse_size (Some "12 XB") = Done 0 /\
  parse_size (Some "1.2.3 GB") = Raised ValueError /\
  parse_size (Some "-5") = Done (-5).
Proof. repeat split; vm_compute; reflexivity. Qed.

End SizeFacts.

(* ================================================================== *)
(** * TimeEstimator: the estimate is the formula of the specification *)
(* ================================================================== *)

Module EstimateFacts.
Import Py Sys Float TimeEstimator.
Local Open Scope Q_scope.






End EstimateFacts.

(* ================================================================== *)
(** * wipe_free_space on a target without free space *)
(* ================================================================== *)

Module ZeroFreeSpace.
Import Py Sys WriteScheduler Pipeline Commands TraceLogic Samples.

(** C4. On a path with 0 bytes free [wipe_free_space] prints no notice
    and writes: it opens the temporary file and fills it until the
    system refuses, then reports a completed pass of 0 bytes. *)
Theorem zero_free_space_is_written_to :
  let out := wipe_free_space reserved_only "/mnt/usb" 1 4 false "zeroes" true
                             (boot []) in
  get_free_space reserved_only "/mnt/usb" = 0 /\
  fst out = Done tt /\
  trace (snd out)
  = [PassBanner 0 1 "zeroes"; Opened tmp;
     Wrote tmp [x00; x00; x00; x00] 4; BarDraw;
     Wrote tmp [x00; x00; x00; x00] 8; BarDraw;
     WriteFault tmp [x00; x00; x00; x00] ENOSPC; BarDraw;
     Removed tmp; PassComplete 0 0; Summary 1 0].
Proof. vm_compute. repeat split. Qed.

End ZeroFreeSpace.

(* ================================================================== *)
(** * Rules for [runs] *)
(* ================================================================== *)

Module RunFacts.
Import Py Sys TraceLogic.
Local Open Scope py_scope.

Section Rules.
Context {A : Type}.
Variable T : list event -> res A -> Prop.

Lemma runs_ret (a : A) : T [] (Done a) -> runs T (ret a).
Proof.
  intros H w. exists []. cbn. rewrite app_nil_r. split; [reflexivity|exact H].
Qed.

Lemma runs_raise (e : exn) : T [] (Raised e) -> runs T (raise e).
Proof.
  intros H w. exists []. cbn. rewrite app_nil_r. split; [reflexivity|exact H].
Qed.

Lemma runs_weaken (T0 : list event -> res A -> Prop) (c : W A) :
  runs T0 c -> (forall evs r, T0 evs r -> T evs r) -> runs T c.
Proof.
  intros Hc Himp w. destruct (Hc w) as [evs [Ht Hr]].
  exists evs. split; [exact Ht|]. apply Himp. exact Hr.
Qed.

Lemma runs_bind {B} (T1 : list event -> res B -> Prop)
      (c : W B) (k : B -> W A) :
  runs T1 c ->
  (forall evs1 b, T1 evs1 (Done b) ->
                  runs (fun evs2 r => T (evs1 ++ evs2)%list r) (k b)) ->
  (forall evs1 e, T1 evs1 (Raised e) -> T evs1 (Raised e)) ->
  runs T (bind c k).
Proof.
  intros Hc Hk Hraise w. unfold bind.
  destruct (Hc w) as [evs1 [Ht1 Hr1]].
  destruct (c w) as [[b|e] w1]; cbn [fst snd] in *.
  - destruct (Hk evs1 b Hr1 w1) as [evs2 [Ht2 Hr2]].
    exists (evs1 ++ evs2)%list. split; [|exact Hr2].
    rewrite Ht2, Ht1, app_assoc. reflexivity.
  - exists evs1. split; [exact Ht1|]. apply Hraise. exact Hr1.
Qed.

Lemma runs_emit (e : event) (k : W A) :
  runs (fun evs r => T (e :: evs) r) k -> runs T (bind (emit e) (fun _ => k)).
Proof.
  intros Hk w. unfold bind, emit, modify.
  destruct (Hk (log e w)) as [evs [Ht Hr]].
  exists (e :: evs). split; [|exact Hr].
  rewrite Ht. cbn [trace log]. rewrite <- app_assoc. reflexivity.
Qed.

Lemma runs_modify (f : world -> world) (k : W A) :
  (forall w, trace (f w) = trace w) ->
  runs T k -> runs T (bind (modify f) (fun _ => k)).
Proof.
  intros Hf Hk w. unfold bind, modify.
  destruct (Hk (f w)) as [evs [Ht Hr]].
  exists evs. split; [|exact Hr]. rewrite Ht, Hf. reflexivity.
Qed.

Lemma runs_skip (k : W A) : runs T k -> runs T (bind (ret tt) (fun _ => k)).
Proof. intros Hk w. exact (Hk w). Qed.

Lemma runs_try_except (T1 : list event -> res A -> Prop)
      (c : W A) (sel : exn -> bool) (h : exn -> W A) :
  runs T1 c ->
  (forall evs a, T1 evs (Done a) -> T evs (Done a)) ->
  (forall evs e, T1 evs (Raised e) -> sel e = false -> T evs (Raised e)) ->
  (forall evs e, T1 evs (Raised e) -> sel e = true ->
                 runs (fun evs2 r => T (evs ++ evs2)%list r) (h e)) ->
  runs T (try_except c sel h).
Proof.
  intros Hc Hdone Hpass Hcatch w. unfold try_except.
  destruct (Hc w) as [evs1 [Ht1 Hr1]].
  destruct (c w) as [[a|e] w1]; cbn [fst snd] in *.
  - exists evs1. split; [exact Ht1|]. apply Hdone. exact Hr1.
  - destruct (sel e) eqn:Hsel.
    + destruct (Hcatch evs1 e Hr1 Hsel w1) as [evs2 [Ht2 Hr2]].
      exists (evs1 ++ evs2)%list. split; [|exact Hr2].
      rewrite Ht2, Ht1, app_assoc. reflexivity.
    + exists evs1. split; [exact Ht1|]. apply Hpass; assumption.
Qed.

End Rules.

Lemma runs_emit_last (T : list event -> res unit -> Prop) (e : event) :
  T [e] (Done tt) -> runs T (emit e).
Proof.
  intros H w. exists [e]. split; [reflexivity|exact H].
Qed.

Lemma milestones_app (a b : list event) :
  milestones (a ++ b) = (milestones a ++ milestones b)%list.
Proof.
  induction a as [|e a IH]; [reflexivity|].
  cbn [app milestones]. destruct (milestone_of e); rewrite IH; reflexivity.
Qed.

End RunFacts.

(* ================================================================== *)
(** * The pipeline of [format_disk] *)
(* ================================================================== *)

Module PipelineFacts.
Import Py Sys WriteScheduler Pipeline TraceLogic RunFacts.
Local Open Scope py_scope.

Ltac calm_list :=
  repeat (apply Forall_cons; [reflexivity|]); try apply Forall_nil.

(** The format command of a failing step. *)
Lemma run_format_command_fails (E : env) (step : string) :
  calm (FormatCmd step) -> format_fails E step ->
  runs breaks_off (run_format_command E step).
Proof.
  intros Hstep Hf. unfold run_format_command, format_fails in *.
  apply runs_emit.
  destruct (format_command E step) as [rc|errno].
  - destruct (rc =? 0) eqn:Hrc; [apply Z.eqb_eq in Hrc; contradiction|].
    apply runs_emit. apply runs_raise. split.
    + apply Forall_cons; [exact Hstep|]. calm_list.
    + exists (SystemExit 1). split; [reflexivity|left; reflexivity].
  - apply runs_raise. split.
    + apply Forall_cons; [exact Hstep|]. calm_list.
    + exists (OSError errno). split; [reflexivity|right; eexists; reflexivity].
Qed.

Lemma calm_app (a b : list event) :
  Forall calm a -> Forall calm b -> Forall calm (a ++ b).
Proof. intros Ha Hb. apply Forall_app. split; assumption. Qed.

(** A handler that prints one line and calls [sys.exit(1)]. *)
Lemma runs_say_exit {A} (evs : list event) (m : string) :
  Forall calm evs ->
  runs (fun evs2 r => @exits_with A 1 (evs ++ evs2) r)
       (bind (emit (Say m)) (fun _ => raise (SystemExit 1))).
Proof.
  intros Hevs. apply runs_emit. apply runs_raise. split; [|reflexivity].
  apply calm_app; [exact Hevs|]. calm_list.
Qed.

(** [perform_format] ends the process when the command fails. *)
Lemma perform_format_fails (E : env) (filesystem step : string) :
  calm (FormatCmd step) -> format_fails E step ->
  runs (exits_with 1) (perform_format E filesystem step).
Proof.
  intros Hstep Hf. unfold perform_format.
  pose proof (run_format_command_fails E step Hstep Hf) as Hcmd.
  eapply runs_try_except with (T1 := breaks_off).
  - eapply runs_bind with (T1 := breaks_off).
    + destruct (platform_system E).
      * exact Hcmd.
      * destruct (mem (lower filesystem) linux_filesystems).
        -- eapply runs_try_except with (T1 := breaks_off).
           ++ exact Hcmd.
           ++ intros evs a [_ [e [H _]]]. discriminate H.
           ++ intros evs e H _. exact H.
           ++ intros evs e [Hevs _] _. eapply runs_weaken.
              ** apply runs_say_exit. exact Hevs.
              ** intros evs2 r [Hc Hr]. split; [exact Hc|].
                 exists (SystemExit 1). split; [exact Hr|left; reflexivity].
        -- apply runs_emit. apply runs_raise. split; [calm_list|].
           exists (SystemExit 1). split; [reflexivity|left; reflexivity].
      * eapply runs_try_except with (T1 := breaks_off).
        -- exact Hcmd.
        -- intros evs a [_ [e [H _]]]. discriminate H.
        -- intros evs e H _. exact H.
        -- intros evs e [Hevs _] _. eapply runs_weaken.
           ++ apply runs_say_exit. exact Hevs.
           ++ intros evs2 r [Hc Hr]. split; [exact Hc|].
              exists (SystemExit 1). split; [exact Hr|left; reflexivity].
      * apply runs_emit. apply runs_raise. split; [calm_list|].
        exists (SystemExit 1). split; [reflexivity|left; reflexivity].
    + intros evs1 b [_ [e [H _]]]. discriminate H.
    + intros evs1 e [Hevs [e' [H He']]]. split; [exact Hevs|].
      exists e'. split; [|exact He']. inversion H. reflexivity.
  - intros evs a [_ [e [H _]]]. discriminate H.
  - intros evs e [Hevs [e' [H He']]] Hsel. split; [exact Hevs|].
    inversion H. subst e'. destruct He' as [He'|[n He']]; subst e.
    + reflexivity.
    + discriminate Hsel.
  - intros evs e [Hevs _] _. apply runs_say_exit. exact Hevs.
Qed.

Section Exits.
Context {A : Type}.
Variable code : Z.

Lemma exits_emit (e : event) (k : W A) :
  calm e -> runs (exits_with code) k ->
  runs (exits_with code) (bind (emit e) (fun _ => k)).
Proof.
  intros He Hk. apply runs_emit. eapply runs_weaken; [exact Hk|].
  intros evs r [Hc Hr]. split; [|exact Hr]. apply Forall_cons; assumption.
Qed.

Lemma exits_modify (f : world -> world) (k : W A) :
  (forall w, trace (f w) = trace w) -> runs (exits_with code) k ->
  runs (exits_with code) (bind (modify f) (fun _ => k)).
Proof. intros Hf Hk. apply runs_modify; assumption. Qed.

Lemma exits_after {B} (c : W B) (k : B -> W A) :
  runs goes_on c -> (forall b, runs (exits_with code) (k b)) ->
  runs (exits_with code) (bind c k).
Proof.
  intros Hc Hk. eapply runs_bind with (T1 := goes_on).
  - exact Hc.
  - intros evs1 b [Hevs _]. eapply runs_weaken; [apply Hk|].
    intros evs r [Hc2 Hr]. split; [|exact Hr]. apply calm_app; assumption.
  - intros evs1 e [_ [a H]]. discriminate H.
Qed.

End Exits.

Lemma goes_on_ret {A} (a : A) : runs goes_on (ret a).
Proof. apply runs_ret. split; [constructor|]. exists a. reflexivity. Qed.

Lemma goes_on_emit {A} (e : event) (k : W A) :
  calm e -> runs goes_on k -> runs goes_on (bind (emit e) (fun _ => k)).
Proof.
  intros He Hk. apply runs_emit. eapply runs_weaken; [exact Hk|].
  intros evs r [Hc Hr]. split; [|exact Hr]. apply Forall_cons; assumption.
Qed.

Lemma goes_on_note (e : event) : calm e -> runs goes_on (emit e).
Proof.
  intros He. apply runs_emit_last. split.
  - apply Forall_cons; [exact He|constructor].
  - exists tt. reflexivity.
Qed.

Lemma goes_on_after {A B} (c : W B) (k : B -> W A) :
  runs goes_on c -> (forall b, runs goes_on (k b)) -> runs goes_on (bind c k).
Proof.
  intros Hc Hk. eapply runs_bind with (T1 := goes_on).
  - exact Hc.
  - intros evs1 b [Hevs _]. eapply runs_weaken; [apply Hk|].
    intros evs r [Hc2 Hr]. split; [|exact Hr]. apply calm_app; assumption.
  - intros evs1 e [_ [a H]]. discriminate H.
Qed.

(** The hidden-area stage never stops the run, whatever it finds. *)
Lemma check_hpa_dco_goes_on (E : env) : runs goes_on (check_hpa_dco E).
Proof.
  unfold check_hpa_dco.
  destruct (platform_system E); try destruct (hpa_check E);
    (apply goes_on_emit; [reflexivity|apply goes_on_ret]).
Qed.

Lemma remove_hpa_dco_goes_on (E : env) : runs goes_on (remove_hpa_dco E).
Proof.
  unfold remove_hpa_dco. apply goes_on_emit; [reflexivity|apply goes_on_ret].
Qed.

Lemma hidden_area_stage_goes_on (E : env) : runs goes_on (hidden_area_stage E).
Proof.
  unfold hidden_area_stage.
  apply goes_on_after; [apply check_hpa_dco_goes_on|].
  intros [|]; [|apply goes_on_ret].
  apply goes_on_emit; [reflexivity|].
  apply goes_on_after; [apply remove_hpa_dco_goes_on|].
  intros [|].
  - apply goes_on_emit; [reflexivity|]. apply goes_on_note. reflexivity.
  - apply goes_on_note. reflexivity.
Qed.

(** C2. When the disk is found, the user confirms and the command of
    the initial format fails, [format_disk] ends with [sys.exit(1)],
    and nothing of the free-space wipe or of the final format has
    happened: no event of either is in the trace. *)
Theorem failed_format_is_fatal :
  forall (E : env) (disk_path filesystem : string) (label : option string)
         (no_confirm : bool) (passes : Z) (pattern : string) (verify : bool)
         (w : world),
    disk_found E -> confirmed E no_confirm ->
    format_fails E "Formatting" ->
    let out := format_disk E disk_path filesystem label no_confirm passes
                           pattern verify w in
    fst out = Raised (SystemExit 1) /\
    Commands.exit_status (fst out) = 1 /\
    exists evs, trace (snd out) = (trace w ++ evs)%list
                /\ Forall (fun e => wipe_or_reformat e = false) evs.
Proof.
  intros E disk_path filesystem label no_confirm passes pattern verify w
         Hdisk Hconf Hfail out.
  assert (H : runs (exits_with 1)
                   (format_disk E disk_path filesystem label no_confirm
                                passes pattern verify)).
  { unfold format_disk.
    apply exits_modify; [reflexivity|].
    apply exits_after.
    { destruct Hdisk as [Hw|Hex].
      - rewrite Hw. apply goes_on_ret.
      - rewrite Hex. destruct (platform_system E); apply goes_on_ret. }
    intros _.
    apply exits_emit; [reflexivity|].
    apply exits_emit; [reflexivity|].
    apply exits_emit; [reflexivity|].
    apply exits_after; [apply hidden_area_stage_goes_on|]. intros _.
    apply exits_emit; [reflexivity|].
    apply exits_emit; [reflexivity|].
    apply exits_emit; [reflexivity|].
    apply exits_after.
    { destruct Hconf as [Hn|Ht].
      - rewrite Hn. apply goes_on_ret.
      - rewrite Ht. destruct no_confirm; apply goes_on_ret. }
    intros _.
    eapply runs_try_except with (T1 := exits_with 1).
    - apply exits_emit; [reflexivity|].
      eapply runs_bind with (T1 := exits_with 1).
      + apply perform_format_fails; [reflexivity|exact Hfail].
      + intros evs1 b [_ Hb]. discriminate Hb.
      + intros evs1 e [Hc He]. split; [exact Hc|].
        inversion He. reflexivity.
    - intros evs a [_ Ha]. discriminate Ha.
    - intros evs e Hr _. exact Hr.
    - intros evs e [_ He] Hsel. inversion He. subst e. discriminate Hsel. }
  destruct (H w) as [evs [Ht [Hc Hr]]]. fold out in Ht, Hr.
  split; [exact Hr|]. split; [rewrite Hr; reflexivity|].
  exists evs. split; [exact Ht|exact Hc].
Qed.

Lemma failed_format_is_fatal_witness :
  disk_found Samples.bad_format /\ confirmed Samples.bad_format true /\
  format_fails Samples.bad_format "Formatting" /\
  fst (format_disk Samples.bad_format "/dev/sdb" "ext4" None true 3 "all"
                   false (boot []))
  = Raised (SystemExit 1).
Proof.
  assert (Hd : disk_found Samples.bad_format) by (right; reflexivity).
  assert (Hc : confirmed Samples.bad_format true) by (left; reflexivity).
  assert (Hf : format_fails Samples.bad_format "Formatting")
    by (intros H; discriminate H).
  split; [exact Hd|]. split; [exact Hc|]. split; [exact Hf|].
  exact (proj1 (failed_format_is_fatal
                  Samples.bad_format "/dev/sdb" "ext4" None true 3 "all"
                  false (boot []) Hd Hc Hf)).
Defined.

End PipelineFacts.

(* ================================================================== *)
(** * Which computations can end in [sys.exit] *)
(* ================================================================== *)

Module StayFacts.
Import Py Sys WriteScheduler Pipeline TraceLogic.
Local Open Scope py_scope.

Lemma stays_ret {A} (a : A) : stays (@ret world A a).
Proof. intros w. exact Logic.I. Qed.

Lemma stays_raise {A} (e : exn) : is_Exception e = true -> stays (@raise world A e).
Proof. intros He w. exact He. Qed.

Lemma stays_bind {A B} (c : W A) (k : A -> W B) :
  stays c -> (forall a, stays (k a)) -> stays (bind c k).
Proof.
  intros Hc Hk w. unfold bind. specialize (Hc w).
  destruct (c w) as [[a|e] w1]; cbn [fst] in *; [apply Hk|exact Hc].
Qed.

Lemma stays_try_except {A} (c : W A) sel (h : exn -> W A) :
  stays c -> (forall e, stays (h e)) -> stays (try_except c sel h).
Proof.
  intros Hc Hh w. unfold try_except. specialize (Hc w).
  destruct (c w) as [[a|e] w1]; cbn [fst] in *; [exact Logic.I|].
  destruct (sel e); [apply Hh|exact Hc].
Qed.

(** [except Exception] around a computation that stays returns. *)
Lemma stays_caught {A} (c : W A) (h : exn -> W A) (w : world) :
  stays c -> (forall e w1, is_done (fst (h e w1))) ->
  is_done (fst (try_except c is_Exception h w)).
Proof.
  intros Hc Hh. unfold try_except. specialize (Hc w).
  destruct (c w) as [[a|e] w1]; cbn [fst] in *.
  - exists a. reflexivity.
  - rewrite Hc. apply Hh.
Qed.

Lemma stays_try_finally {A} (c : W A) (f : W unit) :
  stays c -> stays f -> stays (try_finally c f).
Proof.
  intros Hc Hf w. unfold try_finally. specialize (Hc w).
  destruct (c w) as [r w1]. specialize (Hf w1).
  destruct (f w1) as [[u|e] w2]; cbn [fst] in *; assumption.
Qed.

Lemma stays_for_each {A} (xs : list A) (body : A -> W unit) :
  (forall x, stays (body x)) -> stays (for_each xs body).
Proof.
  intros Hb. induction xs as [|x xs IH]; [apply stays_ret|].
  cbn [for_each]. apply stays_bind; [apply Hb|intros _; exact IH].
Qed.

Lemma stays_modify (f : world -> world) : stays (modify f).
Proof. intros w. exact Logic.I. Qed.

Lemma stays_emit (e : event) : stays (emit e).
Proof. intros w. exact Logic.I. Qed.

Lemma stays_path_exists (f : string) : stays (path_exists f).
Proof. intros w. exact Logic.I. Qed.

Lemma stays_os_remove (E : env) (f : string) : stays (os_remove E f).
Proof. intros w. unfold os_remove. destruct (removable E f); exact Logic.I || reflexivity. Qed.

Lemma stays_open_wb (f : string) : stays (open_wb f).
Proof. intros w. exact Logic.I. Qed.

Lemma stays_urandom (E : env) (n : Z) : stays (urandom E n).
Proof. intros w. unfold urandom. destruct (n <? 0); exact Logic.I || reflexivity. Qed.

Lemma stays_tqdm_draw : stays tqdm_draw.
Proof.
  intros w. unfold tqdm_draw.
  destruct (progress_bar w) as [b|]; [destruct (disable b)|]; exact Logic.I.
Qed.

Lemma stays_add_written (n : Z) : stays (add_written n).
Proof. intros w. unfold add_written. destruct (written w); exact Logic.I || reflexivity. Qed.

Lemma stays_read_written : stays read_written.
Proof. intros w. unfold read_written. destruct (written w); exact Logic.I || reflexivity. Qed.

Lemma stays_flush (f : string) (n bs : Z) : stays (occasional_flush f n bs).
Proof.
  unfold occasional_flush. destruct (bs * 100 =? 0).
  - apply stays_raise. reflexivity.
  - destruct (n mod (bs * 100) =? 0); [apply stays_emit|apply stays_ret].
Qed.

Ltac stay_step :=
  lazymatch goal with
  | |- stays (ret _) => apply stays_ret
  | |- stays (emit _) => apply stays_emit
  | |- stays (modify _) => apply stays_modify
  | |- stays (path_exists _) => apply stays_path_exists
  | |- stays (os_remove _ _) => apply stays_os_remove
  | |- stays (open_wb _) => apply stays_open_wb
  | |- stays (urandom _ _) => apply stays_urandom
  | |- stays tqdm_draw => apply stays_tqdm_draw
  | |- stays tqdm_new => apply stays_modify
  | |- stays (register _) => apply stays_modify
  | |- stays (add_written _) => apply stays_add_written
  | |- stays read_written => apply stays_read_written
  | |- stays (occasional_flush _ _ _) => apply stays_flush
  | |- stays (raise _) => apply stays_raise; reflexivity
  | |- stays (bind _ _) => apply stays_bind; [|intros ?]
  | |- stays (try_except _ _ _) => apply stays_try_except; [|intros ?]
  | |- stays (try_finally _ _) => apply stays_try_finally
  | |- stays (for_each _ _) => apply stays_for_each; intros ?
  | |- stays (if ?b then _ else _) => destruct b
  end.

Ltac stay := repeat (cbv beta zeta; stay_step).

Lemma stays_wfs_chunk (E : env) (mode : string) (bs : Z) :
  stays (wipe_free_space_chunk E mode bs).
Proof.
  unfold wipe_free_space_chunk. stay.
Qed.

Lemma stays_fd_chunk (E : env) (mode : string) (bs : Z) :
  stays (format_disk_chunk E mode bs).
Proof.
  unfold format_disk_chunk. stay.
Qed.

Lemma stays_cleanup_one (E : env) (f : string) : stays (cleanup_one E f).
Proof. unfold cleanup_one. stay. Qed.

Lemma stays_cleanup (E : env) : stays (cleanup_temp_files E).
Proof.
  unfold cleanup_temp_files. apply stays_bind; [intros w; exact Logic.I|].
  intros w0. apply stays_for_each. intros x. apply stays_cleanup_one.
Qed.

Lemma stays_remove_and_unregister (E : env) (f : string) :
  stays (remove_and_unregister E f).
Proof. unfold remove_and_unregister. stay. Qed.

Lemma stays_register (f : string) : stays (register f).
Proof. apply stays_modify. Qed.

(** A write loop that is not interrupted ends by its [OSError]. *)
Lemma stays_fd_loop (E : env) (f mode : string) (bs : Z) (n : nat) (errno : Z) :
  stays (format_disk_loop E f mode bs n (WriteRaises errno)).
Proof.
  induction n as [|n IH]; cbn [format_disk_loop].
  - apply stays_bind; [apply stays_fd_chunk|]. intros c. stay.
  - apply stays_bind; [apply stays_fd_chunk|]. intros c. stay. exact IH.
Qed.

Lemma stays_wfs_loop (E : env) (f mode : string) (bs : Z) (n : nat) (errno : Z) :
  stays (wipe_free_space_loop E f mode bs n (WriteRaises errno)).
Proof.
  induction n as [|n IH]; cbn [wipe_free_space_loop].
  - apply stays_bind; [apply stays_wfs_chunk|]. intros c. stay.
  - apply stays_bind; [apply stays_wfs_chunk|]. intros c. stay. exact IH.
Qed.

Lemma stays_fd_pass (E : env) (mp : string) (passes bs free : Z)
      (pattern : string) (p : Z) :
  stop (io E p) <> Sigint ->
  stays (format_disk_pass E mp passes bs free pattern p).
Proof.
  intros Hs. unfold format_disk_pass, format_disk_fill.
  destruct (stop (io E p)) as [errno|] eqn:Hstop; [|contradiction].
  stay; [apply stays_fd_loop | apply stays_remove_and_unregister].
Qed.

Lemma stays_fd_wipe (E : env) (mp : string) (passes : Z) (pattern : string) :
  not_interrupted E -> stays (format_disk_wipe E mp passes pattern).
Proof.
  intros Hs. unfold format_disk_wipe.
  stay; [apply stays_fd_pass; apply Hs | apply stays_cleanup].
Qed.

End StayFacts.

(* ================================================================== *)
(** * The order of the steps of [format_disk] *)
(* ================================================================== *)

Module OrderFacts.
Import Py Sys WriteScheduler Pipeline TraceLogic TraceFacts RunFacts.
Import WriteFacts StayFacts.
Local Open Scope py_scope.

Lemma unmarked_logic (bs : Z) : wipe_logic bs (fun _ => True) unmarked.
Proof.
  constructor.
  - constructor; intros; exact Logic.I.
  - intros; exact Logic.I.
  - intros e He. destruct e; try reflexivity; contradiction.
  - intros. split; [exact Logic.I|reflexivity].
  - reflexivity.
Qed.

Lemma milestones_unmarked (evs : list event) :
  Forall unmarked evs -> milestones evs = [].
Proof.
  induction 1 as [|e evs He _ IH]; [reflexivity|].
  cbn [milestones]. rewrite He. exact IH.
Qed.

(** A computation without milestones that cannot end in [sys.exit]. *)
Lemma runs_quietly {A} (c : W A) :
  yields (fun _ => True) unmarked anything c -> stays c ->
  runs (marks [] no_exit) c.
Proof.
  intros Hy Hs w. destruct (Hy w Logic.I) as [_ [[evs [Ht Hf]] _]].
  exists evs. split; [exact Ht|].
  split; [apply milestones_unmarked; exact Hf|apply Hs].
Qed.

Section Marks.
Context {A : Type}.
Variable R : res A -> Prop.

Lemma marks_emit_some (e : event) (m : milestone) (L : list milestone)
      (k : W A) :
  milestone_of e = Some m -> runs (marks L R) k ->
  runs (marks (m :: L) R) (bind (emit e) (fun _ => k)).
Proof.
  intros He Hk. apply runs_emit. eapply runs_weaken; [exact Hk|].
  intros evs r [Hm Hr]. split; [|exact Hr].
  cbn [milestones]. rewrite He, Hm. reflexivity.
Qed.

Lemma marks_emit_none (e : event) (L : list milestone) (k : W A) :
  milestone_of e = None -> runs (marks L R) k ->
  runs (marks L R) (bind (emit e) (fun _ => k)).
Proof.
  intros He Hk. apply runs_emit. eapply runs_weaken; [exact Hk|].
  intros evs r [Hm Hr]. split; [|exact Hr].
  cbn [milestones]. rewrite He. exact Hm.
Qed.

Lemma marks_modify (f : world -> world) (L : list milestone) (k : W A) :
  (forall w, trace (f w) = trace w) -> runs (marks L R) k ->
  runs (marks L R) (bind (modify f) (fun _ => k)).
Proof. intros Hf Hk. apply runs_modify; assumption. Qed.

Lemma marks_after {B} (L1 L2 : list milestone) (c : W B) (k : B -> W A) :
  runs (marks L1 is_done) c -> (forall b, runs (marks L2 R) (k b)) ->
  runs (marks (L1 ++ L2) R) (bind c k).
Proof.
  intros Hc Hk. eapply runs_bind with (T1 := marks L1 is_done).
  - exact Hc.
  - intros evs1 b [Hm _]. eapply runs_weaken; [apply Hk|].
    intros evs r [Hm2 Hr]. split; [|exact Hr].
    rewrite milestones_app, Hm, Hm2. reflexivity.
  - intros evs1 e [_ [a H]]. discriminate H.
Qed.

End Marks.

Lemma marks_ret {A} (a : A) : runs (marks [] is_done) (ret a).
Proof. apply runs_ret. split; [reflexivity|]. exists a. reflexivity. Qed.

Lemma marks_note (e : event) :
  milestone_of e = None -> runs (marks [] is_done) (emit e).
Proof.
  intros He. apply runs_emit_last. split.
  - cbn [milestones]. rewrite He. reflexivity.
  - exists tt. reflexivity.
Qed.

(** The free-space step shows one milestone and, when no pass is
    interrupted, ends without [sys.exit]. *)
Lemma fd_wipe_marks (E : env) (mp : string) (passes : Z) (pattern : string) :
  not_interrupted E ->
  runs (marks [DidWipe] no_exit) (format_disk_wipe E mp passes pattern).
Proof.
  intros Hs. unfold format_disk_wipe.
  apply marks_emit_some; [reflexivity|]. cbv zeta.
  assert (Hbs : 0 < 1048576) by reflexivity.
  pose proof (unmarked_logic 1048576) as HL.
  apply runs_quietly.
  - eapply yields_bind;
      [apply yields_modify; [intros; exact Logic.I|reflexivity]|].
    intros _ _. eapply yields_bind; [apply (yields_set_atexit _ _ _ HL)|].
    intros _ _. eapply yields_bind; [apply (yields_container_off _ _ _ HL)|].
    intros _ _. eapply yields_bind.
    { apply yields_for_each. intros p. unfold format_disk_pass.
      apply (yields_say _ _ _ HL); [exact Logic.I|].
      eapply yields_bind;
        [apply yields_modify; [intros; exact Logic.I|reflexivity]|].
      intros _ _. apply (yields_fd_fill E _ _ _ Hbs HL). }
    intros _ _. eapply yields_bind; [apply (yields_read_written _ _)|].
    intros total _. apply (yields_say _ _ _ HL); [exact Logic.I|].
    eapply yields_bind; [apply (yields_set_atexit _ _ _ HL)|].
    intros _ _. apply (yields_cleanup E _ _ _ HL).
  - stay; [apply stays_fd_pass; apply Hs | apply stays_cleanup].
Qed.

(** [perform_format] runs the command of a supported file system and
    returns when the command succeeds. *)
Lemma perform_format_marks (E : env) (filesystem step : string)
      (m : milestone) :
  format_supported E filesystem ->
  milestone_of (FormatCmd step) = Some m ->
  runs (marks [m] (fun r => format_command E step = Exited 0 -> is_done r))
       (perform_format E filesystem step).
Proof.
  intros Hsup Hm. unfold perform_format.
  assert (Hcmd : runs (marks [m] (fun r : res unit =>
                                    format_command E step = Exited 0
                                    -> is_done r))
                      (run_format_command E step)).
  { unfold run_format_command. apply marks_emit_some; [exact Hm|].
    destruct (format_command E step) as [rc|errno].
    - destruct (rc =? 0) eqn:Hrc.
      + eapply runs_weaken; [apply marks_note; reflexivity|].
        intros evs r [Hl Hr]. split; [exact Hl|]. intros _. exact Hr.
      + apply runs_emit. apply runs_raise. split; [reflexivity|].
        intros H. inversion H. subst rc. discriminate Hrc.
    - apply runs_raise. split; [reflexivity|]. intros H. discriminate H. }
  set (T := marks [m] (fun r : res unit =>
              match r with
              | Done _ => True
              | Raised x => format_command E step = Exited 0 -> False
              end)).
  assert (Hcmd' : runs T (run_format_command E step)).
  { eapply runs_weaken; [exact Hcmd|]. intros evs r [Hl Hr].
    split; [exact Hl|]. destruct r as [u|x]; [exact Logic.I|].
    intros H0. destruct (Hr H0) as [a Ha]. discriminate Ha. }
  assert (Hguard : forall sel msg,
             runs T (try_except (run_format_command E step) sel
                       (fun _ => bind (emit (Say msg))
                                      (fun _ => raise (SystemExit 1))))).
  { intros sel msg. eapply runs_try_except with (T1 := T).
    - exact Hcmd'.
    - intros evs a H. exact H.
    - intros evs x H _. exact H.
    - intros evs x [Hl Hr] _. apply runs_emit. apply runs_raise. split.
      + rewrite milestones_app, Hl. reflexivity.
      + exact Hr. }
  eapply runs_try_except
    with (T1 := marks [m] (fun r : res bool =>
                  match r with
                  | Done _ => True
                  | Raised x => format_command E step = Exited 0 -> False
                  end)).
  - eapply runs_bind with (T1 := T).
    + unfold format_supported in Hsup.
      destruct (platform_system E).
      * exact Hcmd'.
      * rewrite Hsup. apply Hguard.
      * apply Hguard.
      * contradiction.
    + intros evs1 b [Hl _]. apply runs_ret. split; [|exact Logic.I].
      rewrite app_nil_r. exact Hl.
    + intros evs1 x [Hl Hr]. split; [exact Hl|exact Hr].
  - intros evs a [Hl _]. split; [exact Hl|]. intros _. exists a. reflexivity.
  - intros evs x [Hl Hr] _. split; [exact Hl|]. intros H0. destruct (Hr H0).
  - intros evs x [Hl Hr] _. apply runs_emit. apply runs_raise. split.
    + rewrite milestones_app, Hl. reflexivity.
    + intros H0. destruct (Hr H0).
Qed.

Lemma marks_then {A B} (R : res A -> Prop) (L1 L2 : list milestone)
      (c : W B) (b0 : B) (k : B -> W A) :
  runs (marks L1 (fun r => r = Done b0)) c -> runs (marks L2 R) (k b0) ->
  runs (marks (L1 ++ L2) R) (bind c k).
Proof.
  intros Hc Hk.
  eapply runs_bind with (T1 := marks L1 (fun r => r = Done b0)).
  - exact Hc.
  - intros evs1 b [Hm Hb]. inversion Hb. subst b.
    eapply runs_weaken; [exact Hk|].
    intros evs r [Hm2 Hr]. split; [|exact Hr].
    rewrite milestones_app, Hm, Hm2. reflexivity.
  - intros evs1 e [_ H]. discriminate H.
Qed.

Lemma marks_emit_ret {B} (e : event) (b : B) :
  runs (marks (milestones [e]) (fun r => r = Done b))
       (bind (emit e) (fun _ => ret b)).
Proof.
  apply runs_emit. apply runs_ret. split; reflexivity.
Qed.

(** The hidden-area stage, when it fails, shows its failure and
    returns. *)
Lemma hidden_area_stage_marks (E : env) :
  hidden_area_fails E ->
  runs (marks [HiddenFailed] is_done) (hidden_area_stage E).
Proof.
  intros Hfail. unfold hidden_area_fails in Hfail.
  assert (Hrest : runs (marks [HiddenFailed] is_done)
            (bind (emit (Say "Removing hidden areas (HPA/DCO) for secure wiping..."))
               (fun _ =>
                  bind (bind (emit (Ran HiddenAreaRemoval false))
                             (fun _ => ret false))
                       (fun success : bool =>
                          if success then
                            bind (emit (Say "Writing data to previously hidden areas..."))
                                 (fun _ => emit (Ran RawOverwrite true))
                          else
                            emit (Say "Warning: Could not fully remove hidden areas."))))).
  { apply marks_emit_none; [reflexivity|].
    apply (marks_then is_done [HiddenFailed] [] _ false).
    - apply (marks_emit_ret (Ran HiddenAreaRemoval false) false).
    - apply marks_note. reflexivity. }
  assert (Hfound : forall k : W unit,
             runs (marks [HiddenFailed] is_done) k ->
             runs (marks [HiddenFailed] is_done)
                  (bind (bind (emit (Ran HiddenAreaCheck true))
                              (fun _ => ret true))
                        (fun has_hidden : bool =>
                           if has_hidden then k else ret tt))).
  { intros k Hk. apply (marks_then is_done [] [HiddenFailed] _ true).
    - apply (marks_emit_ret (Ran HiddenAreaCheck true) true).
    - exact Hk. }
  unfold hidden_area_stage, check_hpa_dco, remove_hpa_dco.
  destruct (platform_system E); try contradiction;
    destruct (hpa_check E) as [[|]|]; try contradiction.
  - apply Hfound. exact Hrest.
  - apply (marks_then is_done [HiddenFailed] [] _ false).
    + apply (marks_emit_ret (Ran HiddenAreaCheck false) false).
    + apply marks_ret.
  - destruct (hpa_removal E) as [[|]|].
    + exfalso. apply Hfail. reflexivity.
    + apply Hfound. exact Hrest.
    + apply Hfound. exact Hrest.
  - apply (marks_then is_done [HiddenFailed] [] _ false).
    + apply (marks_emit_ret (Ran HiddenAreaCheck false) false).
    + apply marks_ret.
Qed.

(** C8. When the hidden-area stage fails (and the disk is found, the
    user confirms, the initial format succeeds, the mount point is found
    and no pass is interrupted), the trace of [format_disk] shows the
    failure and then the enhanced erase, the SMART clearing, the initial
    format, the free-space wipe and the final format, in this order. *)
Theorem hidden_area_failure_is_soft :
  forall (E : env) (disk_path filesystem : string) (label : option string)
         (no_confirm : bool) (passes : Z) (pattern : string) (verify : bool)
         (mount_point : string) (w : world),
    hidden_area_fails E ->
    disk_found E -> confirmed E no_confirm ->
    format_supported E filesystem ->
    format_command E "Formatting" = Exited 0 ->
    truthy (disk_mountpoint E) = Some mount_point ->
    not_interrupted E ->
    exists evs,
      trace (snd (format_disk E disk_path filesystem label no_confirm passes
                              pattern verify w))
      = (trace w ++ evs)%list
      /\ milestones evs
         = [HiddenFailed; DidErase; DidSmart; DidFormat; DidWipe; DidReformat].
Proof.
  intros E disk_path filesystem label no_confirm passes pattern verify
         mount_point w Hhid Hdisk Hconf Hsup Hfmt Hmount Hs.
  set (any := fun _ : res unit => True).
  assert (H : runs (marks [HiddenFailed; DidErase; DidSmart; DidFormat;
                           DidWipe; DidReformat] any)
                   (format_disk E disk_path filesystem label no_confirm
                                passes pattern verify)).
  { unfold format_disk.
    apply marks_modify; [reflexivity|].
    apply (marks_after any [] [HiddenFailed; DidErase; DidSmart; DidFormat;
                               DidWipe; DidReformat]).
    { destruct Hdisk as [Hw|Hex].
      - rewrite Hw. apply marks_ret.
      - rewrite Hex. destruct (platform_system E); apply marks_ret. }
    intros _.
    apply marks_emit_none; [reflexivity|].
    apply marks_emit_none; [reflexivity|].
    apply marks_emit_none; [reflexivity|].
    apply (marks_after any [HiddenFailed]
                       [DidErase; DidSmart; DidFormat; DidWipe; DidReformat]);
      [apply hidden_area_stage_marks; exact Hhid|].
    intros _.
    apply marks_emit_some; [reflexivity|].
    apply marks_emit_some; [reflexivity|].
    apply marks_emit_none; [reflexivity|].
    apply (marks_after any [] [DidFormat; DidWipe; DidReformat]).
    { destruct Hconf as [Hn|Ht].
      - rewrite Hn. apply marks_ret.
      - rewrite Ht. destruct no_confirm; apply marks_ret. }
    intros _.
    eapply runs_try_except
      with (T1 := marks [DidFormat; DidWipe; DidReformat] any).
    - apply marks_emit_none; [reflexivity|].
      apply (marks_after any [DidFormat] [DidWipe; DidReformat]).
      { eapply runs_weaken;
          [apply (perform_format_marks E filesystem "Formatting" DidFormat Hsup);
           reflexivity|].
        intros evs r [Hl Hr]. split; [exact Hl|]. apply Hr. exact Hfmt. }
      intros _.
      apply marks_emit_none; [reflexivity|].
      rewrite Hmount.
      apply (marks_after any [DidWipe] [DidReformat]).
      { apply marks_emit_none; [reflexivity|].
        eapply runs_try_except with (T1 := marks [DidWipe] no_exit).
        - apply fd_wipe_marks. exact Hs.
        - intros evs a [Hl _]. split; [exact Hl|]. exists a. reflexivity.
        - intros evs e [_ Hr] Hsel. cbn in Hr. rewrite Hr in Hsel.
          discriminate Hsel.
        - intros evs e [Hl _] _.
          apply runs_emit. apply runs_emit_last. split.
          + rewrite milestones_app, Hl. reflexivity.
          + exists tt. reflexivity. }
      intros _.
      apply marks_emit_none; [reflexivity|].
      eapply runs_bind with (T1 := marks [DidReformat] (fun _ => True)).
      + eapply runs_weaken;
          [apply (perform_format_marks E filesystem "Final formatting"
                                       DidReformat Hsup);
           reflexivity|].
        intros evs r [Hl _]. split; [exact Hl|exact Logic.I].
      + intros evs1 b [Hl _]. apply runs_emit_last. split; [|exact Logic.I].
        rewrite milestones_app, Hl. reflexivity.
      + intros evs1 e [Hl _]. split; [exact Hl|exact Logic.I].
    - intros evs a Ha. exact Ha.
    - intros evs e He _. exact He.
    - intros evs e [Hl _] _. apply runs_emit. apply runs_raise. split.
      + rewrite milestones_app, Hl. reflexivity.
      + exact Logic.I. }
  destruct (H w) as [evs [Ht [Hl _]]].
  exists evs. split; [exact Ht|exact Hl].
Qed.

Lemma hidden_area_failure_is_soft_witness :
  hidden_area_fails Samples.hidden_stuck /\
  exists evs,
    trace (snd (format_disk Samples.hidden_stuck "/dev/sdb" "ext4" None true
                            3 "all" false (boot [])))
    = (trace (boot []) ++ evs)%list
    /\ milestones evs
       = [HiddenFailed; DidErase; DidSmart; DidFormat; DidWipe; DidReformat].
Proof.
  assert (Hh : hidden_area_fails Samples.hidden_stuck)
    by (intros H; discriminate H).
  split; [exact Hh|].
  exact (hidden_area_failure_is_soft
           Samples.hidden_stuck "/dev/sdb" "ext4" None true 3 "all" false
           "/mnt/usb" (boot []) Hh (or_intror eq_refl) (or_introl eq_refl)
           eq_refl eq_refl eq_refl
           (fun p (H : WriteRaises ENOSPC = Sigint) =>
              match H with end)).
Defined.

End OrderFacts.

(* ================================================================== *)
(** * How a pass ends when a write fails *)
(* ================================================================== *)

Module PassOutcome.
Import Py Sys WriteScheduler Pipeline Commands TraceLogic TraceFacts Frames.
Import WriteFacts PassFacts.
Local Open Scope py_scope.





Lemma told_refl (w : world) : told [] w w.
Proof. exists []. rewrite app_nil_r. split; reflexivity. Qed.







Section Fill.
Variable E : env.
Variable block_size : Z.
Hypothesis Hbs : 0 < block_size.









End Fill.





End PassOutcome.

(* ================================================================== *)
(** * Cancellation by CTRL+C *)
(* ================================================================== *)

Module CancelFacts.
Import Py Sys WriteScheduler Pipeline Commands TraceLogic TraceFacts Frames.
Import WriteFacts PassFacts PassOutcome.
Local Open Scope py_scope.



Section Cancel.
Variable E : env.
Variable block_size : Z.
Hypothesis Hbs : 0 < block_size.





End Cancel.








End CancelFacts.
